(** * Zephyr chat client: the turn orchestrator [sendMessage]

    A shallow embedding of [sendMessage] and of the handlers around it in
    [index.tsx], together with the data model of [types.ts].

    Conventions of the embedding.
    - A JavaScript string is a [string]; its characters are read as the code
      units U+0000 to U+00FF.  [trim], [toLowerCase], [startsWith],
      [substring], [includes] and [RegExp.prototype.test] are written out for
      that range.
    - An optional property ([id?], [isLoading?], ...) is an [option].
    - React state is threaded explicitly: an updater handed to [setMessages]
      is a function on [list Message], applied to the current transcript.
    - The collaborators ([selectAgent], [generateImageUrl], the clock, the
      environment's API key, the geolocation provider and the completion
      service) are inputs of a turn; every call to one of them is recorded in
      the turn's list of effects. *)

From Stdlib Require Import List Bool Arith ZArith Lia String Ascii.
Import ListNotations.
Open Scope string_scope.
Open Scope nat_scope.

Set Implicit Arguments.

(** ** JavaScript strings *)

Module JS.

Definition code (c : ascii) : nat := nat_of_ascii c.

(** [WhiteSpace] and [LineTerminator] code units below U+0100:
    TAB, LF, VT, FF, CR, SP and NBSP. *)
Definition isWhiteSpace (c : ascii) : bool :=
  let n := code c in
  ((9 <=? n) && (n <=? 13)) || (n =? 32) || (n =? 160).

Fixpoint trimStart (s : string) : string :=
  match s with
  | EmptyString => EmptyString
  | String c s' => if isWhiteSpace c then trimStart s' else s
  end.

Fixpoint trimEnd (s : string) : string :=
  match s with
  | EmptyString => EmptyString
  | String c s' =>
      match trimEnd s' with
      | EmptyString => if isWhiteSpace c then EmptyString else String c EmptyString
      | r => String c r
      end
  end.

(** [String.prototype.trim] *)
Definition trim (s : string) : string := trimEnd (trimStart s).

(** Lower-casing of one code unit: A-Z, and U+00C0..U+00DE except U+00D7. *)
Definition lowerChar (c : ascii) : ascii :=
  let n := code c in
  if ((65 <=? n) && (n <=? 90))
     || ((192 <=? n) && (n <=? 222) && negb (n =? 215))
  then ascii_of_nat (n + 32) else c.

(** [String.prototype.toLowerCase] *)
Fixpoint toLowerCase (s : string) : string :=
  match s with
  | EmptyString => EmptyString
  | String c s' => String (lowerChar c) (toLowerCase s')
  end.

(** [String.prototype.startsWith] *)
Fixpoint startsWith (s p : string) {struct p} : bool :=
  match p, s with
  | EmptyString, _ => true
  | String _ _, EmptyString => false
  | String a p', String b s' => Ascii.eqb a b && startsWith s' p'
  end.

(** [s.substring(n)] *)
Fixpoint substring (n : nat) (s : string) : string :=
  match n, s with
  | O, _ => s
  | S _, EmptyString => EmptyString
  | S n', String _ s' => substring n' s'
  end.

(** [String.prototype.includes] *)
Fixpoint includes (s p : string) : bool :=
  startsWith s p ||
  match s with
  | EmptyString => false
  | String _ s' => includes s' p
  end.

(** A string used as a condition: the empty string is falsy. *)
Definition truthy (s : string) : bool :=
  match s with EmptyString => false | String _ _ => true end.

(** An optional string used as a condition: [undefined] and [""] are falsy. *)
Definition truthy_opt (o : option string) : bool :=
  match o with Some s => truthy s | None => false end.

(** An optional boolean used as a condition. *)
Definition truthy_flag (o : option bool) : bool :=
  match o with Some b => b | None => false end.

(** *** Regular expressions of the shape [/\b(w1|w2|...)\b/] *)

(** [\w] *)
Definition isWordChar (c : ascii) : bool :=
  let n := code c in
  ((48 <=? n) && (n <=? 57)) || ((65 <=? n) && (n <=? 90))
  || (n =? 95) || ((97 <=? n) && (n <=? 122)).

Definition isWord (o : option ascii) : bool :=
  match o with Some c => isWordChar c | None => false end.

(** [\b] between the code unit before the position and the one after it. *)
Definition boundary (before after : option ascii) : bool :=
  xorb (isWord before) (isWord after).

Definition head (s : string) : option ascii :=
  match s with EmptyString => None | String c _ => Some c end.

(** Canonicalisation under the [i] flag.  The patterns of this program are
    ASCII, and a code unit above U+007F never canonicalises to an ASCII one,
    so only the ASCII letters are folded. *)
Definition canonicalize (c : ascii) : ascii :=
  let n := code c in
  if (97 <=? n) && (n <=? 122) then ascii_of_nat (n - 32) else c.

Definition charMatches (ignoreCase : bool) (p c : ascii) : bool :=
  if ignoreCase then Ascii.eqb (canonicalize p) (canonicalize c)
  else Ascii.eqb p c.

(** Match the literal [w] at the front of [s]; on success give the last
    code unit consumed (or [before] when [w] is empty) and the rest. *)
Fixpoint matchLiteral (ignoreCase : bool) (w : string) (before : option ascii)
         (s : string) : option (option ascii * string) :=
  match w with
  | EmptyString => Some (before, s)
  | String p w' =>
      match s with
      | EmptyString => None
      | String c s' =>
          if charMatches ignoreCase p c
          then matchLiteral ignoreCase w' (Some c) s'
          else None
      end
  end.

Record RegExp := { alternatives : list string; ignoreCase : bool }.

(** Does [/\b(w1|...)\b/] match with its left end exactly here? *)
Definition matchHere (re : RegExp) (before : option ascii) (s : string) : bool :=
  boundary before (head s) &&
  existsb (fun w =>
             match matchLiteral (ignoreCase re) w before s with
             | Some (lastc, rest) => boundary lastc (head rest)
             | None => false
             end) (alternatives re).

Fixpoint testFrom (re : RegExp) (before : option ascii) (s : string) : bool :=
  matchHere re before s ||
  match s with
  | EmptyString => false
  | String c s' => testFrom re (Some c) s'
  end.

(** [re.test(s)] *)
Definition test (re : RegExp) (s : string) : bool := testFrom re None s.

End JS.

(** ** Data model ([types.ts]) *)

Inductive Role := USER | MODEL.

Inductive MessageType := TypeText | TypeImage.

(** A citation as the completion service delivers it: both properties are
    optional there, and [sendMessage] keeps the object as it is. *)
Record Source := { title : option string; uri : option string }.

(** [audioBuffer], the cache of the speech player, is left out: [sendMessage]
    neither reads nor sets it. *)
Record Message := {
  id : option string;
  role : Role;
  text : string;
  sources : option (list Source);
  image : option string;
  agentName : option string;
  type : option MessageType;
  isLoading : option bool
}.

(** The attachment of the input box. *)
Record Attachment := { url : string; data : string; mimeType : string }.

(** What [selectAgent] returns when it finds a persona. *)
Record Agent := {
  name : string;
  agentRole : string;
  description : string;
  instructions : string
}.


(** ** The completion service ([@google/genai]) as [sendMessage] uses it *)

(** One entry of [groundingMetadata.groundingChunks]. *)
Record GroundingChunk := { web : option Source; maps : option Source }.

Record GroundingMetadata := { groundingChunks : option (list GroundingChunk) }.

Record Candidate := { groundingMetadata : option GroundingMetadata }.

(** A chunk of the response stream; [chunkText] is [chunk.text]. *)
Record Chunk := { chunkText : option string; candidates : option (list Candidate) }.

Inductive Part :=
| PartText (t : string)
| PartInlineData (mime payload : string).

Record Content := { contentRole : Role; parts : list Part }.

Inductive Tool := GoogleSearch | GoogleMaps.

(** [toolConfig.retrievalConfig.latLng]; the coordinates are only copied. *)
Record LatLng := { latitude : Z; longitude : Z }.

Record Request := {
  model : string;
  contents : list Content;
  systemInstruction : string;
  tools : list Tool;
  toolConfig : option LatLng
}.

(** A thrown value: its [message] property, and what it prints as. *)
Record JsError := { message : option string; printed : string }.

(** How [getCurrentPosition] settles. *)
Inductive GeoOutcome :=
| GeoResolved (pos : LatLng)
| GeoRejected.

(** How the streaming call goes: the chunks delivered, then a normal end
    ([failure = None]) or a thrown error.  A call that is rejected before the
    first chunk has [chunks = []]. *)
Record StreamOutcome := { chunks : list Chunk; failure : option JsError }.

(** What one turn reads from its surroundings. *)
Record Env := {
  nowUser : string;        (* [Date.now().toString()], first reading *)
  nowModel : string;       (* [Date.now().toString()], second reading *)
  localeString : string;   (* [new Date().toLocaleString()] *)
  apiKey : option string;  (* [process.env.API_KEY] *)
  geolocation : GeoOutcome;
  response : StreamOutcome
}.

(** Calls that leave the orchestrator.  [GenerateImageUrl] stands for the
    call made inside the state updater of the [/image] branch: it is logged
    once for that updater, and how often React runs an updater (twice under
    [StrictMode] in a development build) is not modelled. *)
Inductive Effect :=
| SelectAgent (messageText : string)
| GenerateImageUrl (prompt : string)
| GetCurrentPosition (timeout : Z)
| GenerateContentStream (req : Request).

(** ** Component state and the monad of a handler *)

Record World := {
  messages : list Message;
  input : string;
  attachment : option Attachment;
  effects : list Effect
}.

Definition M (A : Type) : Type := World -> A * World.

Definition ret {A : Type} (a : A) : M A := fun w => (a, w).

Definition bind {A B : Type} (m : M A) (k : A -> M B) : M B :=
  fun w => let (a, w') := m w in k a w'.

Notation "x <- m ;; k" := (bind m (fun x => k))
  (at level 61, m at next level, right associativity).
Notation "m ;; k" := (bind m (fun _ => k))
  (at level 61, right associativity).

Definition setMessages (f : list Message -> list Message) : M unit :=
  fun w => (tt, {| messages := f (messages w); input := input w;
                   attachment := attachment w; effects := effects w |}).

Definition setInput (s : string) : M unit :=
  fun w => (tt, {| messages := messages w; input := s;
                   attachment := attachment w; effects := effects w |}).

Definition setAttachment (a : option Attachment) : M unit :=
  fun w => (tt, {| messages := messages w; input := input w;
                   attachment := a; effects := effects w |}).

Definition perform (e : Effect) : M unit :=
  fun w => (tt, {| messages := messages w; input := input w;
                   attachment := attachment w; effects := (effects w ++ [e])%list |}).

(** The world a handler leaves behind. *)
Definition exec {A : Type} (m : M A) (w : World) : World := snd (m w).

(** ** Pieces of [sendMessage] *)

Definition nl : string := String (ascii_of_nat 10) EmptyString.

(** [m.id === placeholderId] *)
Definition hasId (placeholderId : string) (m : Message) : bool :=
  match id m with
  | Some i => String.eqb i placeholderId
  | None => false
  end.

(** [{ ...m, text: t, isLoading: false }] *)
Definition withText (t : string) (m : Message) : Message :=
  {| id := id m; role := role m; text := t; sources := sources m;
     image := image m; agentName := agentName m; type := type m;
     isLoading := Some false |}.

(** [{ ...msg, sources: acc }] *)
Definition withSources (acc : list Source) (m : Message) : Message :=
  {| id := id m; role := role m; text := text m; sources := Some acc;
     image := image m; agentName := agentName m; type := type m;
     isLoading := isLoading m |}.

(** [prev.map(m => m.id === placeholderId ? f m : m)] *)
Definition patch (placeholderId : string) (f : Message -> Message)
           (prev : list Message) : list Message :=
  map (fun m => if hasId placeholderId m then f m else m) prev.

(** [/\b(time|date)\b/] *)
Definition timeRegex : JS.RegExp :=
  {| JS.alternatives := ["time"; "date"]; JS.ignoreCase := false |}.

(** [/\b(developed you|your developer|your creator|created you|made you)\b/] *)
Definition creatorRegex : JS.RegExp :=
  {| JS.alternatives := ["developed you"; "your developer"; "your creator";
                         "created you"; "made you"];
     JS.ignoreCase := false |}.

(** [/\b(near|nearby|location|place|restaurant|cafe|hotel|park|address|direction|where is|at)\b/i] *)
Definition mapRegex : JS.RegExp :=
  {| JS.alternatives := ["near"; "nearby"; "location"; "place"; "restaurant";
                         "cafe"; "hotel"; "park"; "address"; "direction";
                         "where is"; "at"];
     JS.ignoreCase := true |}.

(** [`Connection Error: ${error.message || error}`] *)
Definition connectionError (error : JsError) : string :=
  "Connection Error: " ++
  (if JS.truthy_opt (message error)
   then match message error with Some s => s | None => EmptyString end
   else printed error).

(** [chunk.candidates?.[0]?.groundingMetadata?.groundingChunks] *)
Definition groundingChunksOf (chunk : Chunk) : option (list GroundingChunk) :=
  match candidates chunk with
  | Some (c :: _) =>
      match groundingMetadata c with
      | Some gm => groundingChunks gm
      | None => None
      end
  | _ => None
  end.

(** [c => c.web ? c.web : c.maps ? c.maps : null] *)
Definition pickSource (c : GroundingChunk) : option Source :=
  match web c with
  | Some s => Some s
  | None => maps c
  end.

(** [.filter(s => !!(s?.uri && s.title))] *)
Fixpoint keepCited (l : list (option Source)) : list Source :=
  match l with
  | [] => []
  | Some s :: r =>
      if JS.truthy_opt (uri s) && JS.truthy_opt (title s)
      then s :: keepCited r else keepCited r
  | None :: r => keepCited r
  end.

(** [exist.uri === s.uri] *)
Definition sameUri (a b : Source) : bool :=
  match uri a, uri b with
  | Some x, Some y => String.eqb x y
  | None, None => true
  | _, _ => false
  end.

(** [[...acc, ...sources.filter(s => !acc.some(exist => exist.uri === s.uri))]] *)
Definition mergeSources (acc sources : list Source) : list Source :=
  (acc ++ filter (fun s => negb (existsb (fun exist => sameUri exist s) acc)) sources)%list.

(** The loop variables [fullText] and [accumulatedSources]. *)
Record Accum := { fullText : string; accumulatedSources : list Source }.

(** The body of [for await (const chunk of responseStream)]. *)
Definition onChunk (placeholderId : string) (st : Accum) (chunk : Chunk) : M Accum :=
  fullText' <-
    (match chunkText chunk with
     | Some t =>
         if JS.truthy t then
           let fullText' := fullText st ++ t in
           setMessages (patch placeholderId (withText fullText')) ;;
           ret fullText'
         else ret (fullText st)
     | None => ret (fullText st)
     end) ;;
  match groundingChunksOf chunk with
  | Some gcs =>
      let sources := keepCited (map pickSource gcs) in
      if 0 <? List.length sources then
        let acc' := mergeSources (accumulatedSources st) sources in
        setMessages (patch placeholderId (withSources acc')) ;;
        ret {| fullText := fullText'; accumulatedSources := acc' |}
      else ret {| fullText := fullText'; accumulatedSources := accumulatedSources st |}
  | None => ret {| fullText := fullText'; accumulatedSources := accumulatedSources st |}
  end.

(** The whole loop over the chunks that arrive. *)
Fixpoint forAwait (placeholderId : string) (st : Accum) (cs : list Chunk) : M Accum :=
  match cs with
  | [] => ret st
  | chunk :: rest =>
      st' <- onChunk placeholderId st chunk ;;
      forAwait placeholderId st' rest
  end.

(** The [catch] clause. *)
Definition onError (placeholderId : string) (error : JsError) : M unit :=
  setMessages (patch placeholderId (withText (connectionError error))).

Definition present {A : Type} (o : option A) : bool :=
  match o with Some _ => true | None => false end.

(** [messages.some(m => m.isLoading)] *)
Definition isBusy (messages : list Message) : bool :=
  existsb (fun m => JS.truthy_flag (isLoading m)) messages.

Definition userMessageOf (userMsgId messageText : string)
           (imageAttachment : option Attachment) : Message :=
  {| id := Some userMsgId; role := USER; text := JS.trim messageText;
     sources := None; image := option_map url imageAttachment;
     agentName := None; type := None; isLoading := None |}.

(** The model message of the [/image] command. *)
Definition imageMessage (placeholderId imageUrl : string) : Message :=
  {| id := Some placeholderId; role := MODEL; text := imageUrl;
     sources := None; image := None; agentName := Some "Creative Agent";
     type := Some TypeImage; isLoading := None |}.

(** The loading placeholder of a chat turn. *)
Definition placeholder (placeholderId agent : string) : Message :=
  {| id := Some placeholderId; role := MODEL; text := EmptyString;
     sources := None; image := None; agentName := Some agent;
     type := None; isLoading := Some true |}.

Definition defaultInstruction : string :=
  "You are Zephyr, a helpful AI assistant created by Quantum Coders. Responses should be formatted in Markdown.".

(** [historyForAPI] *)
Definition historyForAPI (messages : list Message) : list Content :=
  map (fun msg => {| contentRole := role msg; parts := [PartText (text msg)] |})
      (filter (fun m => negb (JS.truthy_flag (isLoading m))) messages).

(** [currentParts] *)
Definition currentParts (messageText : string)
           (imageAttachment : option Attachment) : list Part :=
  ((if JS.truthy (JS.trim messageText) then [PartText (JS.trim messageText)] else [])
   ++ match imageAttachment with
      | Some a => [PartInlineData (mimeType a) (data a)]
      | None => []
      end)%list.

Section Orchestrator.

(** The two functions imported from [./agentManager]. *)
Variable selectAgent : string -> option Agent.
Variable generateImageUrl : string -> string.

(** [sendMessage] from the API key check to the streaming call (the source's
    lines 512 to 563).  The result is the placeholder's id when the call has
    been issued and the loop is to follow, and [None] when the turn is over. *)
Definition openStream (env : Env) (messages : list Message)
           (messageText : string) (imageAttachment : option Attachment)
           (lowerCaseInput : string) (selectedAgent : option Agent)
           (agent placeholderId : string) : M (option string) :=
  if negb (JS.truthy_opt (apiKey env)) then
    setMessages (patch placeholderId (withText "Error: API Key missing.")) ;;
    ret None
  else
    let finalSystemInstruction :=
      match selectedAgent with
      | Some a =>
          instructions a ++ nl ++ nl ++ "CURRENT AGENT MODE: " ++ agent ++ nl
          ++ "ROLE: " ++ agentRole a ++ nl ++ "DESCRIPTION: " ++ description a
      | None => defaultInstruction
      end in
    let contents :=
      (historyForAPI messages
       ++ [{| contentRole := USER; parts := currentParts messageText imageAttachment |}])%list in
    let isMapQuery := JS.test mapRegex lowerCaseInput in
    located <-
      (if isMapQuery then
         perform (GetCurrentPosition 10000%Z) ;;
         ret ([GoogleSearch; GoogleMaps],
              match geolocation env with
              | GeoResolved pos => Some pos
              | GeoRejected => None
              end)
       else ret ([GoogleSearch], None)) ;;
    perform (GenerateContentStream
               {| model := "gemini-2.5-flash";
                  contents := contents;
                  systemInstruction := finalSystemInstruction;
                  tools := fst located;
                  toolConfig := snd located |}) ;;
    ret (Some placeholderId).

(** [sendMessage] up to the streaming call (the source's lines 459 to 563). *)
Definition startTurn (env : Env) (messages : list Message)
           (messageText : string) (imageAttachment : option Attachment)
  : M (option string) :=
  if (negb (JS.truthy (JS.trim messageText)) && negb (present imageAttachment))
     || isBusy messages
  then ret None
  else
    let userMsgId := nowUser env ++ "-user" in
    let placeholderId := nowModel env ++ "-model" in
    let userMessage := userMessageOf userMsgId messageText imageAttachment in
    let lowerCaseInput := JS.toLowerCase (JS.trim messageText) in
    let chat : M (option string) :=
      perform (SelectAgent messageText) ;;
      let selectedAgent := selectAgent messageText in
      let agent := match selectedAgent with Some a => name a | None => "Zephyr" end in
      setMessages (fun prev => (prev ++ [userMessage; placeholder placeholderId agent])%list) ;;
      setInput EmptyString ;; setAttachment None ;;
      let continue :=
        openStream env messages messageText imageAttachment lowerCaseInput
                   selectedAgent agent placeholderId in
      match imageAttachment with
      | None =>
          if JS.test timeRegex lowerCaseInput then
            setMessages (patch placeholderId
                           (withText ("The current date and time is: " ++ localeString env))) ;;
            ret None
          else if JS.test creatorRegex lowerCaseInput
                  && negb (JS.includes lowerCaseInput "quantum coders") then
            setMessages (patch placeholderId
                           (withText "I was created by **Mohammad Rayyan Ali**.")) ;;
            ret None
          else continue
      | Some _ => continue
      end in
    if JS.startsWith lowerCaseInput "/image " then
      let prompt := JS.substring 7 (JS.trim messageText) in
      if JS.truthy prompt then
        perform (GenerateImageUrl prompt) ;;
        setMessages (fun prev =>
                       (prev ++ [userMessage;
                                 imageMessage placeholderId (generateImageUrl prompt)])%list) ;;
        setInput EmptyString ;; setAttachment None ;;
        ret None
      else chat
    else chat.

(** [sendMessage]: [messages] is the transcript the handler was rendered
    with, the world is the component's current state. *)
Definition sendMessage (env : Env) (messages : list Message)
           (messageText : string) (imageAttachment : option Attachment) : M unit :=
  started <- startTurn env messages messageText imageAttachment ;;
  match started with
  | None => ret tt
  | Some placeholderId =>
      forAwait placeholderId
               {| fullText := EmptyString; accumulatedSources := [] |}
               (chunks (response env)) ;;
      match failure (response env) with
      | Some error => onError placeholderId error
      | None => ret tt
      end
  end.

(** A submission from the rendered component: the handler sees the
    transcript of the current state. *)
Definition submit (env : Env) (messageText : string)
           (imageAttachment : option Attachment) (w : World) : World :=
  exec (sendMessage env (messages w) messageText imageAttachment) w.

(** ** The component between events *)

(** A streaming call that has been issued and has not ended yet. *)
Record Pending := { placeholderIdOf : string; accum : Accum }.

(** A call of [sendMessage] that has passed the guard and the [/image] test
    and waits for [selectAgent] to settle (the source's line 487): what its
    closure holds, the transcript it was rendered with among it. *)
Record Call := {
  callEnv : Env;
  callRendered : list Message;
  callText : string;
  callImage : option Attachment
}.

Record App := {
  world : World;
  chatHistory : list (list Message);
  inflight : list Pending;
  awaiting : list Call
}.

Definition withWorld (w : World) (a : App) : App :=
  {| world := w; chatHistory := chatHistory a; inflight := inflight a;
     awaiting := awaiting a |}.

(** [prev.filter((_, i) => i !== index)] *)
Fixpoint removeAt {A : Type} (index : nat) (l : list A) : list A :=
  match l, index with
  | [], _ => []
  | _ :: r, O => r
  | x :: r, S i => x :: removeAt i r
  end.

(** The history after [archiveCurrentChat]. *)
Definition archived (a : App) : list (list Message) :=
  match messages (world a) with
  | [] => chatHistory a
  | _ :: _ => messages (world a) :: chatHistory a
  end.

Definition startNewChat (a : App) : App :=
  {| world := {| messages := []; input := EmptyString; attachment := None;
                 effects := effects (world a) |};
     chatHistory := archived a;
     inflight := inflight a;
     awaiting := awaiting a |}.

(** [loadChat(index)]: the chat is read from the history the handler was
    rendered with, the entry is removed from the history after archiving. *)
Definition loadChat (index : nat) (a : App) : option App :=
  match nth_error (chatHistory a) index with
  | Some chat =>
      Some {| world := {| messages := chat; input := input (world a);
                          attachment := attachment (world a);
                          effects := effects (world a) |};
              chatHistory := removeAt index (archived a);
              inflight := inflight a;
              awaiting := awaiting a |}
  | None => None
  end.

Definition deleteChat (index : nat) (a : App) : App :=
  {| world := world a; chatHistory := removeAt index (chatHistory a);
     inflight := inflight a; awaiting := awaiting a |}.

(** [sendMessage] from its first line to the streaming call, for a call
    whose closure holds the transcript [rendered], run on the state the
    component has now; the stream, if one was opened, is then pending. *)
Definition proceed (env : Env) (rendered : list Message) (messageText : string)
           (imageAttachment : option Attachment) (a : App) : App :=
  let (started, w') := startTurn env rendered messageText imageAttachment (world a) in
  {| world := w'; chatHistory := chatHistory a;
     inflight := match started with
                 | Some placeholderId =>
                     (inflight a ++ [{| placeholderIdOf := placeholderId;
                                        accum := {| fullText := EmptyString;
                                                    accumulatedSources := [] |} |}])%list
                 | None => inflight a
                 end;
     awaiting := awaiting a |}.

(** A submission whose classifier call settles before anything else
    happens: [sendMessage] runs to the streaming call at once. *)
Definition send (env : Env) (messageText : string)
           (imageAttachment : option Attachment) (a : App) : App :=
  proceed env (messages (world a)) messageText imageAttachment a.

(** A call of [sendMessage] up to [await selectAgent(messageText)] (the
    source's lines 459 to 487).  The guard returns at once; the [/image]
    branch appends its two messages and returns, with no await on its way;
    every other call has read the clock and now waits for the classifier,
    holding the transcript it was rendered with. *)
Definition call (env : Env) (messageText : string)
           (imageAttachment : option Attachment) (a : App) : App :=
  if (negb (JS.truthy (JS.trim messageText)) && negb (present imageAttachment))
     || isBusy (messages (world a))
  then a
  else if JS.startsWith (JS.toLowerCase (JS.trim messageText)) "/image "
          && JS.truthy (JS.substring 7 (JS.trim messageText))
  then send env messageText imageAttachment a
  else {| world := world a; chatHistory := chatHistory a; inflight := inflight a;
          awaiting := (awaiting a
                       ++ [{| callEnv := env; callRendered := messages (world a);
                              callText := messageText;
                              callImage := imageAttachment |}])%list |}.

(** The rest of a call once [selectAgent] has settled (the source's lines
    488 to 563): it goes on with the transcript of its closure, on the state
    the component has by then; [others] are the calls still waiting. *)
Definition resume (c : Call) (others : list Call) (a : App) : App :=
  let a' := proceed (callEnv c) (callRendered c) (callText c) (callImage c) a in
  {| world := world a'; chatHistory := chatHistory a'; inflight := inflight a';
     awaiting := others |}.

(** One event of the running component.  A handler runs on the transcript
    of the current state (the component has been rendered since the last
    update).  A call of [sendMessage] is two events, the part before
    [await selectAgent] and the part after it, and anything may happen in
    between, another call too.  The later awaits of a call (for the
    position, for the stream to open) change no state, so the part after the
    classifier is one event.  Streams that are pending advance in any
    order. *)
Inductive step : App -> App -> Prop :=
| step_call env messageText imageAttachment a :
    step a (call env messageText imageAttachment a)
| step_resume a before c after :
    awaiting a = (before ++ c :: after)%list ->
    step a (resume c (before ++ after) a)
| step_chunk a before p after chunk :
    inflight a = (before ++ p :: after)%list ->
    step a (let (st', w') := onChunk (placeholderIdOf p) (accum p) chunk (world a) in
            {| world := w'; chatHistory := chatHistory a;
               inflight := (before ++ {| placeholderIdOf := placeholderIdOf p;
                                         accum := st' |} :: after)%list;
               awaiting := awaiting a |})
| step_end a before p after :
    inflight a = (before ++ p :: after)%list ->
    step a {| world := world a; chatHistory := chatHistory a;
              inflight := (before ++ after)%list; awaiting := awaiting a |}
| step_error a before p after error :
    inflight a = (before ++ p :: after)%list ->
    step a {| world := exec (onError (placeholderIdOf p) error) (world a);
              chatHistory := chatHistory a;
              inflight := (before ++ after)%list; awaiting := awaiting a |}
| step_startNewChat a : step a (startNewChat a)
| step_loadChat a index a' : loadChat index a = Some a' -> step a a'
| step_deleteChat a index : step a (deleteChat index a)
| step_reload a :
    step a {| world := {| messages := []; input := EmptyString;
                          attachment := None; effects := effects (world a) |};
              chatHistory := chatHistory a; inflight := []; awaiting := [] |}.

Definition initialApp : App :=
  {| world := {| messages := []; input := EmptyString; attachment := None;
                 effects := [] |};
     chatHistory := []; inflight := []; awaiting := [] |}.

Inductive reachable : App -> Prop :=
| reachable_initial : reachable initialApp
| reachable_step a a' : reachable a -> step a a' -> reachable a'.

End Orchestrator.

(** ** Observations used in the statements *)

(** Number of messages that are loading. *)
Definition loadingCount (l : list Message) : nat :=
  List.length (filter (fun m => JS.truthy_flag (isLoading m)) l).

Definition isNetworkCall (e : Effect) : bool :=
  match e with GenerateContentStream _ => true | _ => false end.

(** The requests sent to the completion service. *)
Definition networkCalls (l : list Effect) : list Effect := filter isNetworkCall l.

Definition isClassifierCall (e : Effect) : bool :=
  match e with SelectAgent _ => true | _ => false end.

Definition isGeoCall (e : Effect) : bool :=
  match e with GetCurrentPosition _ => true | _ => false end.

(** The URIs of a source list. *)
Definition uris (l : list Source) : list (option string) := map uri l.

(** The last message of a transcript. *)
Definition lastMessage (l : list Message) : option Message :=
  match rev l with
  | [] => None
  | m :: _ => Some m
  end.

(** What a handler added to the list of effects. *)
Definition emitted (w w' : World) : list Effect :=
  skipn (List.length (effects w)) (effects w').

(** The guard of [sendMessage]: the call returns at once. *)
Definition rejected (messages : list Message) (messageText : string)
           (imageAttachment : option Attachment) : bool :=
  (negb (JS.truthy (JS.trim messageText)) && negb (present imageAttachment))
  || isBusy messages.

(** The [/image] branch is taken. *)
Definition isImageCommand (messageText : string) : bool :=
  JS.startsWith (JS.toLowerCase (JS.trim messageText)) "/image "
  && JS.truthy (JS.substring 7 (JS.trim messageText)).

(** The inline images of a request, in order. *)
Definition inlineImages (cs : list Content) : list (string * string) :=
  flat_map (fun c =>
              flat_map (fun p => match p with
                                 | PartInlineData mime payload => [(mime, payload)]
                                 | PartText _ => []
                                 end) (parts c)) cs.

(** The last character of a string. *)
Fixpoint lastChar (s : string) : option ascii :=
  match s with
  | EmptyString => None
  | String c EmptyString => Some c
  | String _ s' => lastChar s'
  end.

(** The pattern of the specification's tool-selection step, word for word:
    nearby, location, place, address, where is. *)
Definition specMapPattern : JS.RegExp :=
  {| JS.alternatives := ["nearby"; "location"; "place"; "address"; "where is"];
     JS.ignoreCase := true |}.

(** The persona name a chat turn is tagged with. *)
Definition agentNameOf (selectAgent : string -> option Agent) (messageText : string) : string :=
  match selectAgent messageText with Some a => name a | None => "Zephyr" end.

(** The ids a turn gives to its two messages. *)
Definition userMsgIdOf (env : Env) : string := nowUser env ++ "-user".
Definition placeholderIdFor (env : Env) : string := nowModel env ++ "-model".

(** The state of a chat turn right after the user message and the loading
    placeholder have been appended. *)
Definition appended (selectAgent : string -> option Agent) (env : Env)
           (messageText : string) (imageAttachment : option Attachment)
           (w : World) : World :=
  {| messages := (messages w
                  ++ [userMessageOf (userMsgIdOf env) messageText imageAttachment;
                      placeholder (placeholderIdFor env) (agentNameOf selectAgent messageText)])%list;
     input := EmptyString; attachment := None;
     effects := (effects w ++ [SelectAgent messageText])%list |}.

(** The state once a local answer has replaced the placeholder's text. *)
Definition answered (placeholderId answer : string) (w : World) : World :=
  {| messages := patch placeholderId (withText answer) (messages w);
     input := input w; attachment := attachment w; effects := effects w |}.

(** One of the two local answers is given (time or date, attribution). *)
Definition shortCircuited (messageText : string)
           (imageAttachment : option Attachment) : bool :=
  let lowerCaseInput := JS.toLowerCase (JS.trim messageText) in
  match imageAttachment with
  | None =>
      JS.test timeRegex lowerCaseInput
      || (JS.test creatorRegex lowerCaseInput
          && negb (JS.includes lowerCaseInput "quantum coders"))
  | Some _ => false
  end.

(** The turn gets as far as the streaming call. *)
Definition reachesNetwork (env : Env) (messages : list Message)
           (messageText : string) (imageAttachment : option Attachment) : bool :=
  negb (rejected messages messageText imageAttachment)
  && negb (isImageCommand messageText)
  && negb (shortCircuited messageText imageAttachment)
  && JS.truthy_opt (apiKey env).

Definition initialAccum : Accum :=
  {| fullText := EmptyString; accumulatedSources := [] |}.

(** The loop over a response and the [catch] clause, from the state in which
    the call was issued. *)
Definition streamed (placeholderId : string) (r : StreamOutcome) (w : World) : World :=
  let w2 := exec (forAwait placeholderId initialAccum (chunks r)) w in
  match failure r with
  | Some error => exec (onError placeholderId error) w2
  | None => w2
  end.

(** *** The loop, read as pure functions

    [textOf], [citedIn], [nextAccum], [chunkUpdate] and [streamUpdate] say
    what [onChunk] and [forAwait] compute; [onChunk_spec] and
    [forAwait_spec] below prove that they do. *)

Definition withMessages (l : list Message) (w : World) : World :=
  {| messages := l; input := input w; attachment := attachment w;
     effects := effects w |}.

(** The text fragment of a chunk, [""] when it has none. *)
Definition textOf (chunk : Chunk) : string :=
  match chunkText chunk with Some t => t | None => EmptyString end.

(** The citations of a chunk that have a URI and a title. *)
Definition citedIn (chunk : Chunk) : list Source :=
  match groundingChunksOf chunk with
  | Some gcs => keepCited (map pickSource gcs)
  | None => []
  end.

Definition hasText (chunk : Chunk) : bool := JS.truthy (textOf chunk).

Definition hasCitations (chunk : Chunk) : bool := 0 <? List.length (citedIn chunk).

Definition nextAccum (st : Accum) (chunk : Chunk) : Accum :=
  {| fullText := fullText st ++ textOf chunk;
     accumulatedSources := mergeSources (accumulatedSources st) (citedIn chunk) |}.

(** What one chunk does to the placeholder. *)
Definition chunkUpdate (st : Accum) (chunk : Chunk) (m : Message) : Message :=
  let m1 := if hasText chunk then withText (fullText (nextAccum st chunk)) m else m in
  if hasCitations chunk
  then withSources (accumulatedSources (nextAccum st chunk)) m1 else m1.

(** What a run of chunks does to the placeholder. *)
Fixpoint streamUpdate (st : Accum) (cs : list Chunk) (m : Message) : Message :=
  match cs with
  | [] => m
  | chunk :: rest => streamUpdate (nextAccum st chunk) rest (chunkUpdate st chunk m)
  end.

(** *** The request, read as a pure function

    [requestOf] says which request [openStream] sends; [openStream_key]
    below proves that it does. *)

Definition isMapQuery (messageText : string) : bool :=
  JS.test mapRegex (JS.toLowerCase (JS.trim messageText)).

Definition requestOf (selectAgent : string -> option Agent) (env : Env)
           (rendered : list Message) (messageText : string)
           (imageAttachment : option Attachment) : Request :=
  {| model := "gemini-2.5-flash";
     contents :=
       (historyForAPI rendered
        ++ [{| contentRole := USER;
               parts := currentParts messageText imageAttachment |}])%list;
     systemInstruction :=
       match selectAgent messageText with
       | Some a =>
           instructions a ++ nl ++ nl ++ "CURRENT AGENT MODE: "
           ++ agentNameOf selectAgent messageText ++ nl
           ++ "ROLE: " ++ agentRole a ++ nl ++ "DESCRIPTION: " ++ description a
       | None => defaultInstruction
       end;
     tools := if isMapQuery messageText
              then [GoogleSearch; GoogleMaps] else [GoogleSearch];
     toolConfig := if isMapQuery messageText
                   then match geolocation env with
                        | GeoResolved pos => Some pos
                        | GeoRejected => None
                        end
                   else None |}.

(** The effects of a turn that gets as far as the streaming call. *)
Definition networkEffects (selectAgent : string -> option Agent) (env : Env)
           (rendered : list Message) (messageText : string)
           (imageAttachment : option Attachment) : list Effect :=
  [SelectAgent messageText]
  ++ (if isMapQuery messageText then [GetCurrentPosition 10000%Z] else [])
  ++ [GenerateContentStream
        (requestOf selectAgent env rendered messageText imageAttachment)].

(** The state in which the streaming call has just been issued. *)
Definition opened (selectAgent : string -> option Agent) (env : Env)
           (rendered : list Message) (messageText : string)
           (imageAttachment : option Attachment) (w : World) : World :=
  {| messages := messages (appended selectAgent env messageText imageAttachment w);
     input := EmptyString; attachment := None;
     effects := (effects w
                 ++ networkEffects selectAgent env rendered messageText imageAttachment)%list |}.

(** The same surroundings with another outcome of the position request. *)
Definition withGeolocation (g : GeoOutcome) (env : Env) : Env :=
  {| nowUser := nowUser env; nowModel := nowModel env;
     localeString := localeString env; apiKey := apiKey env;
     geolocation := g; response := response env |}.

(** The detail that the connection-error message embeds. *)
Definition errorDetail (error : JsError) : string :=
  match message error with
  | Some s => if JS.truthy s then s else printed error
  | None => printed error
  end.

(** ** Concrete collaborators and inputs for the worked runs *)

Module Sample.

Definition coder : Agent :=
  {| name := "Coder Agent"; agentRole := "Software engineer";
     description := "Writes and explains code";
     instructions := "You are an expert programmer." |}.

Definition selectAgent (messageText : string) : option Agent :=
  if JS.includes (JS.toLowerCase messageText) "code" then Some coder else None.

Definition generateImageUrl (prompt : string) : string :=
  "https://image.example/prompt/" ++ prompt.

Definition idle : World :=
  {| messages := []; input := "draft"; attachment := None; effects := [] |}.

Definition photo : Attachment :=
  {| url := "data:image/jpeg;base64,AAAA"; data := "AAAA"; mimeType := "image/jpeg" |}.

Definition env (key : option string) (geo : GeoOutcome) (r : StreamOutcome) : Env :=
  {| nowUser := "1700000000000"; nowModel := "1700000000000";
     localeString := "11/3/2026, 9:00:00 AM";
     apiKey := key; geolocation := geo; response := r |}.

Definition cite (u t : string) : GroundingChunk :=
  {| web := Some {| title := Some t; uri := Some u |}; maps := None |}.

Definition chunk (t : option string) (gcs : list GroundingChunk) : Chunk :=
  {| chunkText := t;
     candidates := Some [{| groundingMetadata :=
                              Some {| groundingChunks := Some gcs |} |}] |}.

Definition ended (cs : list Chunk) : StreamOutcome :=
  {| chunks := cs; failure := None |}.

Definition failed (cs : list Chunk) (e : JsError) : StreamOutcome :=
  {| chunks := cs; failure := Some e |}.

Definition boom : JsError :=
  {| message := Some "Failed to fetch"; printed := "TypeError: Failed to fetch" |}.

(** A transcript with a turn in flight. *)
Definition busy : World :=
  {| messages := [userMessageOf "1-user" "hello" None; placeholder "1-model" "Zephyr"];
     input := EmptyString; attachment := None; effects := [SelectAgent "hello"] |}.

(** An earlier turn whose user message carried a picture. *)
Definition withPicture : World :=
  {| messages := [userMessageOf "1-user" "what is this" (Some photo);
                  withText "A cat." (placeholder "1-model" "Zephyr")];
     input := EmptyString; attachment := None; effects := [] |}.

End Sample.

(** ** The rest of [index.tsx]: history sidebar, code blocks *)

(** [m => m.role === Role.USER] *)
Definition isUser (m : Message) : bool :=
  match role m with USER => true | MODEL => false end.

(** The title of an archived chat in [HistorySidebar]:
    [firstUserMsg?.text || (firstUserMsg?.image ? "Image uploaded" : "New Conversation")]. *)
Definition chatTitle (chat : list Message) : string :=
  match find isUser chat with
  | Some firstUserMsg =>
      if JS.truthy (text firstUserMsg) then text firstUserMsg
      else if JS.truthy_opt (image firstUserMsg) then "Image uploaded"
           else "New Conversation"
  | None => "New Conversation"
  end.

(** [history.map((chat, index) => ({ chat, index }))], counting from [start]. *)
Fixpoint indexedFrom {A : Type} (start : nat) (l : list A) : list (A * nat) :=
  match l with
  | [] => []
  | x :: r => (x, start) :: indexedFrom (S start) r
  end.

(** [filteredHistory] of [HistorySidebar]: the rows shown for a search term,
    each a chat with its index in the history. *)
Definition filteredHistory (searchTerm : string) (history : list (list Message))
  : list (list Message * nat) :=
  filter (fun row =>
            JS.includes (JS.toLowerCase (chatTitle (fst row)))
                        (JS.toLowerCase searchTerm))
         (indexedFrom 0 history).

(** [s.replace(/c/g, r)] for a pattern of one literal character. *)
Fixpoint replaceAll (c : ascii) (r : string) (s : string) : string :=
  match s with
  | EmptyString => EmptyString
  | String x s' => ((if Ascii.eqb x c then r else String x EmptyString)
                    ++ replaceAll c r s')%string
  end.

(** [escapedCode] of [renderer.code]. *)
Definition escapedCode (code : string) : string :=
  replaceAll ">" "&gt;" (replaceAll "<" "&lt;" (replaceAll "&" "&amp;" code)).

(** What [escapedCode] puts for one character. *)
Definition escapedChar (c : ascii) : string :=
  if Ascii.eqb c "&" then "&amp;"
  else if Ascii.eqb c "<" then "&lt;"
  else if Ascii.eqb c ">" then "&gt;"
  else String c EmptyString.

(** Every character of the string satisfies the test. *)
Fixpoint allChars (p : ascii -> bool) (s : string) : bool :=
  match s with
  | EmptyString => true
  | String c s' => p c && allChars p s'
  end.

Definition notBacktick (c : ascii) : bool := negb (Ascii.eqb c "`").

(** The three backticks that open and close a code block. *)
Definition fence : string := "```".

(** The first fence of a text: what is before it and what is after it. *)
Fixpoint splitAtFence (s : string) : option (string * string) :=
  if JS.startsWith s fence then Some (EmptyString, JS.substring 3 s)
  else match s with
       | EmptyString => None
       | String c s' =>
           match splitAtFence s' with
           | Some (b, a) => Some (String c b, a)
           | None => None
           end
       end.

(** The longest prefix of characters that pass the test is dropped. *)
Fixpoint dropWhile (p : ascii -> bool) (s : string) : string :=
  match s with
  | EmptyString => EmptyString
  | String c s' => if p c then dropWhile p s' else s
  end.

(** One [codeBlockRegex.exec(text)] of [extractCode], on the text from
    [lastIndex] on: the capture group and the text after the match.

    The pattern is [/```(?:\w+)?\s*([\s\S]*?)```/g].  A match starts at the
    first fence.  The greedy [(?:\w+)?] and [\s*] take all the word
    characters and then all the white space that follow; the lazy group ends
    at the next fence.  What the greedy parts take has no backtick, so giving
    some of it back cannot produce a closing fence that is not there, and
    neither can a later start: when this path fails, [exec] gives [null]. *)
Definition execCodeBlock (rest : string) : option (string * string) :=
  match splitAtFence rest with
  | Some (_, afterOpen) =>
      let afterLang := dropWhile JS.isWordChar afterOpen in
      let afterSpace := dropWhile JS.isWhiteSpace afterLang in
      splitAtFence afterSpace
  | None => None
  end.

(** The [while] loop of [extractCode]: the trimmed groups of the successive
    matches.  Every match takes at least the two fences, so the length of the
    text is fuel enough ([codeBlocks_fuel]). *)
Fixpoint codeBlocks (fuel : nat) (rest : string) : list string :=
  match fuel with
  | O => []
  | S fuel' =>
      match execCodeBlock rest with
      | Some (group, rest') => JS.trim group :: codeBlocks fuel' rest'
      | None => []
      end
  end.

(** [extractCode]: the blocks joined by an empty line, [null] without block. *)
Definition extractCode (text : string) : option string :=
  match codeBlocks (String.length text) text with
  | [] => None
  | matches => Some (String.concat (nl ++ nl) matches)
  end.

(** Whether the form shows the send button (otherwise the microphone), and
    whether that button is disabled. *)
Definition showsSendButton (inputText : string) (att : option Attachment) : bool :=
  JS.truthy (JS.trim inputText) || present att.

Definition sendDisabled (rendered : list Message) : bool := isBusy rendered.

(** *** Shape of the transcripts the component builds *)

(** USER, MODEL, USER, MODEL, ... *)
Fixpoint alternates (l : list Role) : bool :=
  match l with
  | [] => true
  | USER :: MODEL :: r => alternates r
  | _ => false
  end.

(** An id made by a turn for its model message. *)
Definition isModelId (i : string) : Prop := exists t, i = (t ++ "-model")%string.

(** A message as [sendMessage] and the streams leave it: a user message is
    as it was appended (an id of the user kind, a text or an image, no
    loading flag, sources, persona or kind); a model message has an id of
    the model kind and a persona, and no text as long as it is loading. *)
Definition wellFormed (m : Message) : Prop :=
  match role m with
  | USER =>
      (exists t, id m = Some (t ++ "-user")%string)
      /\ (JS.truthy (text m) = true \/ image m <> None)
      /\ isLoading m = None /\ sources m = None
      /\ agentName m = None /\ type m = None
  | MODEL =>
      (exists i, id m = Some i /\ isModelId i)
      /\ agentName m <> None /\ image m = None
      /\ (JS.truthy_flag (isLoading m) = true -> text m = EmptyString)
  end.

Definition goodTranscript (l : list Message) : Prop :=
  alternates (map role l) = true /\ Forall wellFormed l.

(** The invariant behind the shape: transcript, archived chats (none of them
    empty), the ids of the pending streams, and the calls that wait for the
    classifier (each made on a transcript of that shape that passed the
    guard). *)
Definition wellFormedApp (a : App) : Prop :=
  goodTranscript (messages (world a))
  /\ Forall (fun chat => chat <> [] /\ goodTranscript chat) (chatHistory a)
  /\ Forall (fun p => isModelId (placeholderIdOf p)) (inflight a)
  /\ Forall (fun c => goodTranscript (callRendered c)
                       /\ isBusy (callRendered c) = false) (awaiting a).

Definition isGeneratorCall (e : Effect) : bool :=
  match e with GenerateImageUrl _ => true | _ => false end.

(** The calls the handler makes itself, those made inside a state updater
    left aside. *)
Definition handlerEffects (l : list Effect) : list Effect :=
  filter (fun e => negb (isGeneratorCall e)) l.

(** More inputs for the worked runs. *)
Module Cases.

Definition chatA : list Message :=
  [userMessageOf "1-user" "Plan a trip to Rome" None;
   withText "Day 1: the Forum." (placeholder "1-model" "Zephyr")].

Definition chatB : list Message :=
  [userMessageOf "2-user" "" (Some Sample.photo);
   withText "A cat." (placeholder "2-model" "Zephyr")].

Definition chatC : list Message :=
  [userMessageOf "3-user" "Code a calculator" None;
   withText "Here it is." (placeholder "3-model" "Coder Agent")].

Definition app (current : list Message) (history : list (list Message)) : App :=
  {| world := {| messages := current; input := "draft"; attachment := Some Sample.photo;
                 effects := [] |};
     chatHistory := history; inflight := []; awaiting := [] |}.

Definition answer : string :=
  "Use this:" ++ nl ++ "```python" ++ nl ++ "print(1)" ++ nl ++ "```" ++ nl ++ "Done.".

Definition env : Env := Sample.env (Some "key") GeoRejected (Sample.ended []).

(** The component after a first submission: the request is out, the
    placeholder is loading, the stream is pending. *)
Definition started : App :=
  send Sample.selectAgent Sample.generateImageUrl env "hello" None initialApp.

(** ... and after New Chat on top of that. *)
Definition shelved : App := startNewChat started.

(** The first turn answered: its stream has delivered "Hi" and ended. *)
Definition heard : App :=
  {| world := snd (onChunk "1700000000000-model" initialAccum
                           (Sample.chunk (Some "Hi") []) (world started));
     chatHistory := [];
     inflight := [{| placeholderIdOf := "1700000000000-model";
                     accum := fst (onChunk "1700000000000-model" initialAccum
                                           (Sample.chunk (Some "Hi") [])
                                           (world started)) |}];
     awaiting := [] |}.

Definition answeredOnce : App :=
  {| world := world heard; chatHistory := []; inflight := []; awaiting := [] |}.

(** Surroundings with another reading of the clock. *)
Definition envAt (clock : string) : Env :=
  {| nowUser := clock; nowModel := clock; localeString := "11/3/2026, 9:00:00 AM";
     apiKey := Some "key"; geolocation := GeoRejected; response := Sample.ended [] |}.

(** A second question, waiting for the classifier. *)
Definition followUp : Call :=
  {| callEnv := envAt "1700000009000"; callRendered := messages (world answeredOnce);
     callText := "and then?"; callImage := None |}.

Definition asking : App :=
  call Sample.selectAgent Sample.generateImageUrl (envAt "1700000009000")
       "and then?" None answeredOnce.

(** Two submissions on the empty transcript, the second made while the
    first still waits for the classifier; then both go on. *)
Definition firstCall : Call :=
  {| callEnv := envAt "1700000000000"; callRendered := [];
     callText := "hello"; callImage := None |}.

Definition secondCall : Call :=
  {| callEnv := envAt "1700000000400"; callRendered := [];
     callText := "hello again"; callImage := None |}.

Definition calledTwice : App :=
  call Sample.selectAgent Sample.generateImageUrl (envAt "1700000000400")
       "hello again" None
       (call Sample.selectAgent Sample.generateImageUrl (envAt "1700000000000")
             "hello" None initialApp).

Definition raced : App :=
  resume Sample.selectAgent Sample.generateImageUrl secondCall []
         (resume Sample.selectAgent Sample.generateImageUrl firstCall [secondCall]
                 calledTwice).

Definition threeChunks : StreamOutcome :=
  Sample.ended [Sample.chunk (Some "Par") [Sample.cite "https://a.example" "A"];
                Sample.chunk None [];
                Sample.chunk (Some "is.") [Sample.cite "https://a.example" "A again";
                                           Sample.cite "https://b.example" "B"]].

End Cases.

(** * Properties *)

Unset Implicit Arguments.

(** ** Strings *)

Lemma lastChar_app (a : string) (c : ascii) (s : string) :
  lastChar (a ++ String c s) = lastChar (String c s).
Proof.
  induction a as [|x a IH]; [reflexivity|].
  change ((String x a ++ String c s)%string) with (String x (a ++ String c s)).
  cbn [lastChar]. rewrite IH.
  destruct a; reflexivity.
Qed.

Lemma user_model_ids_differ (a b : string) :
  String.eqb (a ++ "-user") (b ++ "-model") = false.
Proof.
  apply String.eqb_neq. intro H.
  apply (f_equal lastChar) in H.
  rewrite !lastChar_app in H. discriminate.
Qed.

Lemma startsWith_lower_image (s : string) :
  JS.startsWith s "/image " = true ->
  JS.startsWith (JS.toLowerCase s) "/image " = true.
Proof.
  intro H.
  do 7 (destruct s as [|? s]; [discriminate|];
        cbn [JS.startsWith] in H; apply andb_prop in H as [Hc H];
        apply Ascii.eqb_eq in Hc; subst).
  reflexivity.
Qed.

Lemma trimEnd_last (s : string) (c : ascii) :
  lastChar (JS.trimEnd s) = Some c -> JS.isWhiteSpace c = false.
Proof.
  induction s as [|a s IH]; [discriminate|].
  cbn [JS.trimEnd]. destruct (JS.trimEnd s) as [|b r] eqn:E.
  - destruct (JS.isWhiteSpace a) eqn:W; [discriminate|].
    cbn. intro H. injection H as <-. exact W.
  - intro H. apply IH. exact H.
Qed.

(** A trimmed text that begins with "/image " goes on after it: in the
    [/image] branch the prompt is never empty. *)
Lemma image_prompt_never_empty (s : string) :
  JS.startsWith (JS.trim s) "/image " = true ->
  JS.truthy (JS.substring 7 (JS.trim s)) = true.
Proof.
  unfold JS.trim. intro H.
  pose proof (trimEnd_last (JS.trimStart s)) as Hlast.
  destruct (JS.trimEnd (JS.trimStart s)) as [|c1 [|c2 [|c3 [|c4 [|c5 [|c6 [|c7 r]]]]]]];
    cbn [JS.startsWith] in H;
    repeat (apply andb_prop in H as [Hc H]; apply Ascii.eqb_eq in Hc; subst);
    try discriminate.
  destruct r as [|c8 r]; [|reflexivity].
  specialize (Hlast _ eq_refl). discriminate.
Qed.

(** ** Updaters *)

Lemma patch_length (i : string) (f : Message -> Message) (l : list Message) :
  List.length (patch i f l) = List.length l.
Proof. apply length_map. Qed.

Lemma patch_app (i : string) (f : Message -> Message) (l1 l2 : list Message) :
  patch i f (l1 ++ l2) = (patch i f l1 ++ patch i f l2)%list.
Proof. apply map_app. Qed.

Lemma hasId_placeholder (i a : string) : hasId i (placeholder i a) = true.
Proof. unfold hasId; simpl. apply String.eqb_refl. Qed.

Lemma hasId_userMessage (env : Env) (t : string) (img : option Attachment) :
  hasId (placeholderIdFor env) (userMessageOf (userMsgIdOf env) t img) = false.
Proof. unfold hasId; simpl. apply user_model_ids_differ. Qed.

Lemma hasId_withText (i t : string) (m : Message) :
  hasId i (withText t m) = hasId i m.
Proof. reflexivity. Qed.

Lemma hasId_withSources (i : string) (acc : list Source) (m : Message) :
  hasId i (withSources acc m) = hasId i m.
Proof. reflexivity. Qed.

Lemma patch_fresh (i : string) (f : Message -> Message) (l : list Message) :
  Forall (fun m => hasId i m = false) l -> patch i f l = l.
Proof.
  induction 1 as [|m l Hm _ IH]; [reflexivity|].
  unfold patch in *; simpl. now rewrite Hm, IH.
Qed.

Lemma skipn_length_app {A : Type} (l r : list A) :
  skipn (List.length l) (l ++ r) = r.
Proof. induction l; simpl; auto. Qed.

Lemma emitted_app (w w' : World) (es : list Effect) :
  effects w' = (effects w ++ es)%list -> emitted w w' = es.
Proof. unfold emitted; intros ->. apply skipn_length_app. Qed.

(** ** The paths through [sendMessage] *)

Section Properties.

Variable selectAgent : string -> option Agent.
Variable generateImageUrl : string -> string.

Lemma startTurn_rejected env rendered t img w :
  rejected rendered t img = true ->
  startTurn selectAgent generateImageUrl env rendered t img w = (None, w).
Proof. unfold rejected, startTurn. intros ->. reflexivity. Qed.

Lemma startTurn_image env rendered t img w :
  rejected rendered t img = false ->
  isImageCommand t = true ->
  startTurn selectAgent generateImageUrl env rendered t img w =
  (None,
   {| messages :=
        (messages w
         ++ [userMessageOf (userMsgIdOf env) t img;
             imageMessage (placeholderIdFor env)
                          (generateImageUrl (JS.substring 7 (JS.trim t)))])%list;
      input := EmptyString; attachment := None;
      effects := (effects w ++ [GenerateImageUrl (JS.substring 7 (JS.trim t))])%list |}).
Proof.
  unfold rejected, isImageCommand, startTurn. intros -> H.
  apply andb_prop in H as [-> ->]. reflexivity.
Qed.

Lemma startTurn_chat env rendered t img w :
  rejected rendered t img = false ->
  isImageCommand t = false ->
  startTurn selectAgent generateImageUrl env rendered t img w =
  let lowerCaseInput := JS.toLowerCase (JS.trim t) in
  let w1 := appended selectAgent env t img w in
  let continue :=
    openStream env rendered t img lowerCaseInput (selectAgent t)
               (agentNameOf selectAgent t) (placeholderIdFor env) w1 in
  match img with
  | None =>
      if JS.test timeRegex lowerCaseInput then
        (None, answered (placeholderIdFor env)
                        ("The current date and time is: " ++ localeString env) w1)
      else if JS.test creatorRegex lowerCaseInput
              && negb (JS.includes lowerCaseInput "quantum coders") then
        (None, answered (placeholderIdFor env)
                        "I was created by **Mohammad Rayyan Ali**." w1)
      else continue
  | Some _ => continue
  end.
Proof.
  unfold rejected, isImageCommand, startTurn. intros -> H.
  cbv zeta.
  assert (E : forall (X Y : M (option string)),
             (if JS.startsWith (JS.toLowerCase (JS.trim t)) "/image "
              then if JS.truthy (JS.substring 7 (JS.trim t)) then X else Y
              else Y) = Y).
  { intros X Y. destruct (JS.startsWith _ _); [|reflexivity].
    cbn [andb] in H. now rewrite H. }
  rewrite E. clear E H.
  destruct img; cbn;
    repeat match goal with |- context [if ?b then _ else _] => destruct b end;
    reflexivity.
Qed.

Lemma openStream_nokey env rendered t img lower agent agentN pid w :
  JS.truthy_opt (apiKey env) = false ->
  openStream env rendered t img lower agent agentN pid w =
  (None, answered pid "Error: API Key missing." w).
Proof. unfold openStream. intros ->. reflexivity. Qed.

Lemma openStream_key env rendered t img w :
  JS.truthy_opt (apiKey env) = true ->
  openStream env rendered t img (JS.toLowerCase (JS.trim t)) (selectAgent t)
             (agentNameOf selectAgent t) (placeholderIdFor env)
             (appended selectAgent env t img w) =
  (Some (placeholderIdFor env), opened selectAgent env rendered t img w).
Proof.
  unfold openStream, opened, networkEffects, requestOf, isMapQuery.
  intros ->. cbn [negb].
  destruct (JS.test mapRegex (JS.toLowerCase (JS.trim t)));
    cbn; rewrite <- ?app_assoc; reflexivity.
Qed.

Lemma sendMessage_finished env rendered t img w w' :
  startTurn selectAgent generateImageUrl env rendered t img w = (None, w') ->
  sendMessage selectAgent generateImageUrl env rendered t img w = (tt, w').
Proof. unfold sendMessage, bind. intros ->. reflexivity. Qed.

Lemma sendMessage_streaming env rendered t img w pid w1 :
  startTurn selectAgent generateImageUrl env rendered t img w = (Some pid, w1) ->
  exec (sendMessage selectAgent generateImageUrl env rendered t img) w =
  let w2 := exec (forAwait pid {| fullText := EmptyString; accumulatedSources := [] |}
                           (chunks (response env))) w1 in
  match failure (response env) with
  | Some error => exec (onError pid error) w2
  | None => w2
  end.
Proof.
  unfold exec, sendMessage, bind. intros ->.
  destruct (forAwait _ _ _ w1) as [st w2]. cbn.
  destruct (failure (response env)); reflexivity.
Qed.

Lemma sendMessage_streamed env rendered t img w pid w1 :
  startTurn selectAgent generateImageUrl env rendered t img w = (Some pid, w1) ->
  exec (sendMessage selectAgent generateImageUrl env rendered t img) w =
  streamed pid (response env) w1.
Proof. intro H. now rewrite (sendMessage_streaming _ _ _ _ _ _ _ H). Qed.

Lemma answered_appended env t img w answer :
  messages (answered (placeholderIdFor env) answer (appended selectAgent env t img w)) =
  (patch (placeholderIdFor env) (withText answer) (messages w)
   ++ [userMessageOf (userMsgIdOf env) t img;
       withText answer (placeholder (placeholderIdFor env) (agentNameOf selectAgent t))])%list.
Proof.
  unfold answered, appended; cbn [messages].
  rewrite patch_app. f_equal.
  unfold patch; cbn [map].
  now rewrite hasId_userMessage, hasId_placeholder.
Qed.

Lemma emitted_answered env t img w answer :
  emitted w (answered (placeholderIdFor env) answer (appended selectAgent env t img w))
  = [SelectAgent t].
Proof. apply emitted_app. reflexivity. Qed.

Lemma emitted_nothing (w : World) : emitted w w = [].
Proof. unfold emitted. apply skipn_all. Qed.

(** ** The guard *)

(** C8: a call whose trimmed text is empty and that carries no image changes
    nothing: the world, hence the message list, is the one before the call,
    and no effect, in particular no network call, is emitted. *)
Theorem empty_submission_is_noop env rendered messageText w :
  JS.trim messageText = EmptyString ->
  let w' := exec (sendMessage selectAgent generateImageUrl env rendered messageText None) w in
  w' = w /\ messages w' = messages w /\ emitted w w' = [].
Proof.
  intros H w'.
  assert (E : w' = w).
  { unfold w', exec.
    rewrite (sendMessage_finished env rendered messageText None w w); [reflexivity|].
    apply startTurn_rejected. unfold rejected. now rewrite H. }
  rewrite E. auto using emitted_nothing.
Qed.

(** ** The [/image] command *)

(** C4, as amended: when no message of the rendered transcript is loading, an
    input whose trimmed text begins with "/image " followed by a non-empty
    prompt appends exactly the user message and one completed model message
    of kind image, whose text is the generated URL and whose persona is
    "Creative Agent"; the only effect is the call of the image generator:
    the classifier is not called and no request is sent. *)
Theorem image_command_answered_locally env rendered messageText imageAttachment w :
  isBusy rendered = false ->
  JS.startsWith (JS.trim messageText) "/image " = true ->
  JS.truthy (JS.substring 7 (JS.trim messageText)) = true ->
  let w' := exec (sendMessage selectAgent generateImageUrl env rendered
                              messageText imageAttachment) w in
  let prompt := JS.substring 7 (JS.trim messageText) in
  exists user reply,
    messages w' = (messages w ++ [user; reply])%list
    /\ role user = USER /\ text user = JS.trim messageText
    /\ role reply = MODEL /\ type reply = Some TypeImage
    /\ text reply = generateImageUrl prompt
    /\ agentName reply = Some "Creative Agent"
    /\ JS.truthy_flag (isLoading reply) = false
    /\ emitted w w' = [GenerateImageUrl prompt]
    /\ filter isClassifierCall (emitted w w') = []
    /\ networkCalls (emitted w w') = [].
Proof.
  intros Hidle Hpre Hprompt w' prompt.
  assert (Hrej : rejected rendered messageText imageAttachment = false).
  { unfold rejected. rewrite Hidle.
    destruct (JS.trim messageText); [discriminate|reflexivity]. }
  assert (Himg : isImageCommand messageText = true).
  { unfold isImageCommand. now rewrite startsWith_lower_image, Hprompt. }
  assert (Hem : emitted w w' = [GenerateImageUrl prompt]).
  { apply emitted_app. unfold w', exec.
    rewrite (sendMessage_finished _ _ _ _ _ _ (startTurn_image env _ _ _ w Hrej Himg)).
    reflexivity. }
  exists (userMessageOf (userMsgIdOf env) messageText imageAttachment),
         (imageMessage (placeholderIdFor env) (generateImageUrl prompt)).
  rewrite Hem. unfold w', exec.
  rewrite (sendMessage_finished _ _ _ _ _ _ (startTurn_image env _ _ _ w Hrej Himg)).
  repeat split.
Qed.

(** ** The streaming loop *)

Lemma append_empty (s : string) : (s ++ EmptyString)%string = s.
Proof. induction s; simpl; congruence. Qed.

Lemma patch_id (i : string) (l : list Message) : patch i (fun m => m) l = l.
Proof.
  unfold patch. induction l as [|m l IH]; simpl; [reflexivity|].
  rewrite IH. now destruct (hasId i m).
Qed.

Lemma patch_patch (i : string) (f g : Message -> Message) (l : list Message) :
  (forall m, hasId i (f m) = hasId i m) ->
  patch i g (patch i f l) = patch i (fun m => g (f m)) l.
Proof.
  intro Hf. unfold patch. rewrite map_map. apply map_ext. intro m.
  destruct (hasId i m) eqn:E; [now rewrite Hf, E | now rewrite E].
Qed.

Lemma hasId_chunkUpdate (i : string) (st : Accum) (c : Chunk) (m : Message) :
  hasId i (chunkUpdate st c m) = hasId i m.
Proof.
  unfold chunkUpdate. destruct (hasText c), (hasCitations c); reflexivity.
Qed.

Lemma hasId_streamUpdate (i : string) (cs : list Chunk) :
  forall st m, hasId i (streamUpdate st cs m) = hasId i m.
Proof.
  induction cs as [|c cs IH]; intros st m; cbn [streamUpdate]; [reflexivity|].
  now rewrite IH, hasId_chunkUpdate.
Qed.

Lemma withMessages_same (w : World) : withMessages (messages w) w = w.
Proof. now destruct w. Qed.

(** [onChunk] patches the placeholder by [chunkUpdate] and moves the loop
    variables by [nextAccum]; nothing else changes. *)
Lemma onChunk_spec (pid : string) (st : Accum) (c : Chunk) (w : World) :
  onChunk pid st c w =
  (nextAccum st c, withMessages (patch pid (chunkUpdate st c) (messages w)) w).
Proof.
  unfold onChunk, chunkUpdate, nextAccum, hasText, hasCitations, citedIn, textOf, bind.
  destruct (chunkText c) as [t|]; [destruct (JS.truthy t) eqn:Et|];
    destruct (groundingChunksOf c) as [gcs|];
    try destruct (0 <? List.length (keepCited (map pickSource gcs))) eqn:El;
    cbn -[patch mergeSources]; rewrite ?Et, ?El;
    unfold withMessages; cbn -[patch mergeSources];
    rewrite ?append_empty;
    try (rewrite patch_patch by (intro; reflexivity));
    rewrite ?patch_id; try reflexivity.
  all: try (destruct t; [|discriminate]; rewrite ?append_empty).
  all: try (destruct (keepCited (map pickSource gcs)); [|discriminate]).
  all: unfold mergeSources; cbn [filter]; rewrite ?app_nil_r;
    try (destruct st; destruct w; reflexivity).
Qed.

Lemma forAwait_spec (pid : string) (cs : list Chunk) :
  forall st w,
    forAwait pid st cs w =
    (fold_left nextAccum cs st,
     withMessages (patch pid (streamUpdate st cs) (messages w)) w).
Proof.
  induction cs as [|c cs IH]; intros st w; cbn [forAwait fold_left streamUpdate].
  - unfold ret. now rewrite patch_id, withMessages_same.
  - unfold bind. rewrite onChunk_spec, IH. f_equal.
    unfold withMessages; cbn [messages input attachment effects].
    now rewrite patch_patch by (intro; apply hasId_chunkUpdate).
Qed.

(** The whole of the loop and the [catch] clause. *)
Lemma streamed_spec (pid : string) (r : StreamOutcome) (w : World) :
  streamed pid r w =
  withMessages
    (patch pid (fun m =>
                  let m' := streamUpdate initialAccum (chunks r) m in
                  match failure r with
                  | Some error => withText (connectionError error) m'
                  | None => m'
                  end) (messages w)) w.
Proof.
  unfold streamed, exec. rewrite forAwait_spec. cbn [snd].
  destruct (failure r) as [e|]; [|reflexivity].
  unfold onError, setMessages, withMessages; cbn [snd messages input attachment effects].
  now rewrite patch_patch by (intro; apply hasId_streamUpdate).
Qed.

Lemma streamed_effects (pid : string) (r : StreamOutcome) (w : World) :
  effects (streamed pid r w) = effects w.
Proof. now rewrite streamed_spec. Qed.

(** *** What the loop does to one message *)

Lemma append_assoc (a b c : string) : ((a ++ b) ++ c)%string = (a ++ (b ++ c))%string.
Proof. induction a; simpl; congruence. Qed.

Lemma fullText_fold (cs : list Chunk) :
  forall st, fullText (fold_left nextAccum cs st)
             = (fullText st ++ fold_right String.append EmptyString (map textOf cs))%string.
Proof.
  induction cs as [|c cs IH]; intro st; cbn [fold_left fold_right map].
  - now rewrite append_empty.
  - rewrite IH. cbn [nextAccum fullText]. apply append_assoc.
Qed.

Lemma isLoading_streamUpdate (cs : list Chunk) :
  forall st m,
    isLoading (streamUpdate st cs m)
    = if existsb hasText cs then Some false else isLoading m.
Proof.
  induction cs as [|c cs IH]; intros st m; cbn [streamUpdate existsb]; [reflexivity|].
  rewrite IH. unfold chunkUpdate.
  destruct (hasText c), (hasCitations c), (existsb hasText cs); reflexivity.
Qed.

Lemma text_streamUpdate (cs : list Chunk) :
  forall st m,
    text m = fullText st ->
    text (streamUpdate st cs m) = fullText (fold_left nextAccum cs st).
Proof.
  induction cs as [|c cs IH]; intros st m Hm; cbn [streamUpdate fold_left]; [exact Hm|].
  apply IH. unfold chunkUpdate, hasText.
  destruct (JS.truthy (textOf c)) eqn:Et, (hasCitations c); cbn; try reflexivity.
  all: destruct (textOf c); [|discriminate]; now rewrite append_empty.
Qed.

Lemma sources_streamUpdate (cs : list Chunk) :
  forall st m,
    sources (streamUpdate st cs m)
    = if existsb hasCitations cs
      then Some (accumulatedSources (fold_left nextAccum cs st))
      else sources m.
Proof.
  induction cs as [|c cs IH]; intros st m; cbn [streamUpdate existsb fold_left];
    [reflexivity|].
  rewrite IH. destruct (existsb hasCitations cs) eqn:E.
  - now rewrite orb_true_r.
  - rewrite orb_false_r. unfold chunkUpdate.
    assert (Hsame : accumulatedSources (fold_left nextAccum cs (nextAccum st c))
                    = accumulatedSources (nextAccum st c)).
    { clear IH. revert E. generalize (nextAccum st c) as s.
      induction cs as [|c' cs IH']; intros s E; cbn [fold_left]; [reflexivity|].
      cbn [existsb] in E. apply orb_false_elim in E as [Ec E].
      rewrite (IH' _ E). unfold nextAccum, mergeSources; cbn.
      unfold hasCitations in Ec.
      destruct (citedIn c'); [cbn; apply app_nil_r | discriminate]. }
    destruct (hasCitations c), (hasText c); cbn; rewrite ?Hsame; reflexivity.
Qed.

Lemma fixed_fields_streamUpdate (cs : list Chunk) :
  forall st m,
    id (streamUpdate st cs m) = id m
    /\ role (streamUpdate st cs m) = role m
    /\ agentName (streamUpdate st cs m) = agentName m
    /\ image (streamUpdate st cs m) = image m
    /\ type (streamUpdate st cs m) = type m.
Proof.
  induction cs as [|c cs IH]; intros st m; cbn [streamUpdate]; [repeat split|].
  destruct (IH (nextAccum st c) (chunkUpdate st c m)) as (-> & -> & -> & -> & ->).
  unfold chunkUpdate. destruct (hasText c), (hasCitations c); repeat split.
Qed.

(** *** Citations *)

Lemma sameUri_true (a b : Source) : sameUri a b = true <-> uri a = uri b.
Proof.
  unfold sameUri. destruct (uri a) as [x|], (uri b) as [y|]; split; intro H;
    try discriminate; try reflexivity.
  - apply String.eqb_eq in H. now subst.
  - injection H as ->. apply String.eqb_refl.
Qed.

Lemma known_uri (acc : list Source) (s : Source) :
  existsb (fun exist => sameUri exist s) acc = true <-> In (uri s) (uris acc).
Proof.
  unfold uris. rewrite existsb_exists, in_map_iff. split.
  - intros (x & Hx & E). exists x. split; [now apply sameUri_true | exact Hx].
  - intros (x & E & Hx). exists x. split; [exact Hx | now apply sameUri_true].
Qed.

(** Entries that come with a later chunk never repeat a URI that is already
    accumulated; within one chunk the entries are taken as they come. *)
Lemma mergeSources_NoDup (acc srcs : list Source) :
  NoDup (uris acc) -> NoDup (uris srcs) -> NoDup (uris (mergeSources acc srcs)).
Proof.
  intros Hacc. unfold mergeSources, uris. rewrite map_app.
  induction srcs as [|s srcs IH]; intro Hs; cbn [filter map].
  - now rewrite app_nil_r.
  - inversion Hs as [|? ? Hnotin Hrest]; subst.
    destruct (existsb (fun exist => sameUri exist s) acc) eqn:E; cbn [negb].
    + now apply IH.
    + cbn [map]. apply NoDup_Add with (a := uri s)
        (l := (map uri acc ++ map uri (filter (fun s0 => negb (existsb (fun exist => sameUri exist s0) acc)) srcs))%list).
      * apply Add_app.
      * split; [now apply IH|].
        rewrite in_app_iff. intros [Hin|Hin].
        -- apply (proj2 (known_uri acc s)) in Hin. congruence.
        -- apply Hnotin. rewrite in_map_iff in Hin |- *.
           destruct Hin as (x & Ex & Hx). exists x. split; [exact Ex|].
           now apply filter_In in Hx.
Qed.

Lemma accumulated_NoDup (cs : list Chunk) :
  Forall (fun c => NoDup (uris (citedIn c))) cs ->
  forall st, NoDup (uris (accumulatedSources st)) ->
             NoDup (uris (accumulatedSources (fold_left nextAccum cs st))).
Proof.
  induction 1 as [|c cs Hc _ IH]; intros st Hst; cbn [fold_left]; [exact Hst|].
  apply IH. now apply mergeSources_NoDup.
Qed.

(** ** The local answers *)

Lemma startTurn_local env rendered t img w answer :
  startTurn selectAgent generateImageUrl env rendered t img w =
  (None, answered (placeholderIdFor env) answer (appended selectAgent env t img w)) ->
  let w' := exec (sendMessage selectAgent generateImageUrl env rendered t img) w in
  messages w' =
  (patch (placeholderIdFor env) (withText answer) (messages w)
   ++ [userMessageOf (userMsgIdOf env) t img;
       withText answer (placeholder (placeholderIdFor env) (agentNameOf selectAgent t))])%list
  /\ emitted w w' = [SelectAgent t].
Proof.
  intros H w'. unfold w', exec.
  rewrite (sendMessage_finished _ _ _ _ _ _ H). cbn [snd].
  split; [apply answered_appended | apply emitted_answered].
Qed.

(** C9: in a turn that passes the guard, is not an [/image] command and is
    not answered locally, a missing (undefined or empty) API key fills the
    placeholder with "Error: API Key missing.", marks it no longer loading,
    and the only effect of the turn is the call of the classifier: no request
    is sent and the position is not asked for. *)
Theorem missing_api_key env rendered messageText imageAttachment w :
  rejected rendered messageText imageAttachment = false ->
  isImageCommand messageText = false ->
  shortCircuited messageText imageAttachment = false ->
  JS.truthy_opt (apiKey env) = false ->
  let w' := exec (sendMessage selectAgent generateImageUrl env rendered
                              messageText imageAttachment) w in
  let filled := withText "Error: API Key missing."
                         (placeholder (placeholderIdFor env)
                                      (agentNameOf selectAgent messageText)) in
  messages w' =
  (patch (placeholderIdFor env) (withText "Error: API Key missing.") (messages w)
   ++ [userMessageOf (userMsgIdOf env) messageText imageAttachment; filled])%list
  /\ text filled = "Error: API Key missing."
  /\ isLoading filled = Some false
  /\ emitted w w' = [SelectAgent messageText]
  /\ networkCalls (emitted w w') = [].
Proof.
  intros Hrej Himg Hsc Hkey w' filled.
  assert (H : startTurn selectAgent generateImageUrl env rendered messageText imageAttachment w =
              (None, answered (placeholderIdFor env) "Error: API Key missing."
                              (appended selectAgent env messageText imageAttachment w))).
  { rewrite (startTurn_chat env _ _ _ w Hrej Himg). cbv zeta.
    unfold shortCircuited in Hsc.
    destruct imageAttachment.
    - now apply openStream_nokey.
    - apply orb_false_elim in Hsc as [-> ->]. now apply openStream_nokey. }
  destruct (startTurn_local _ _ _ _ _ _ H) as [Hm He].
  fold w' in Hm, He. rewrite He. repeat split. exact Hm.
Qed.

(** C5: in a turn that passes the guard and is not an [/image] command,
    - with no image attached, a text matching the time/date pattern gets the
      timestamp answer, whether or not it also matches the creator pattern;
    - with no image attached, a text that does not match the time/date
      pattern, matches the creator pattern and does not contain
      "quantum coders" gets the attribution answer;
    - both answers replace the placeholder's text, mark it no longer loading
      and end the turn with the classifier call as only effect;
    - with an image attached, or with a text that names "quantum coders"
      (and has no time/date word), no local answer is given: the turn goes
      on to the API key check, and sends its one request when there is a
      key. *)
Theorem local_answers_in_order env rendered messageText imageAttachment w :
  rejected rendered messageText imageAttachment = false ->
  isImageCommand messageText = false ->
  let lowerCaseInput := JS.toLowerCase (JS.trim messageText) in
  let w' := exec (sendMessage selectAgent generateImageUrl env rendered
                              messageText imageAttachment) w in
  let filledWith answer :=
    (patch (placeholderIdFor env) (withText answer) (messages w)
     ++ [userMessageOf (userMsgIdOf env) messageText imageAttachment;
         {| id := Some (placeholderIdFor env); role := MODEL; text := answer;
            sources := None; image := None;
            agentName := Some (agentNameOf selectAgent messageText);
            type := None; isLoading := Some false |}])%list in
  (imageAttachment = None ->
   JS.test timeRegex lowerCaseInput = true ->
   messages w' = filledWith ("The current date and time is: " ++ localeString env)
   /\ emitted w w' = [SelectAgent messageText])
  /\ (imageAttachment = None ->
      JS.test timeRegex lowerCaseInput = false ->
      JS.test creatorRegex lowerCaseInput = true ->
      JS.includes lowerCaseInput "quantum coders" = false ->
      messages w' = filledWith "I was created by **Mohammad Rayyan Ali**."
      /\ emitted w w' = [SelectAgent messageText])
  /\ (imageAttachment <> None
      \/ (JS.test timeRegex lowerCaseInput = false
          /\ JS.includes lowerCaseInput "quantum coders" = true) ->
      if JS.truthy_opt (apiKey env)
      then List.length (networkCalls (emitted w w')) = 1
      else messages w' = filledWith "Error: API Key missing.").
Proof.
  intros Hrej Himg lower w' filledWith.
  pose proof (startTurn_chat env _ _ _ w Hrej Himg) as Hchat. cbv zeta in Hchat.
  fold lower in Hchat.
  split; [|split].
  - intros -> Ht. rewrite Ht in Hchat.
    exact (startTurn_local _ _ _ _ _ _ Hchat).
  - intros -> Ht Hc Hq. rewrite Ht, Hc, Hq in Hchat.
    exact (startTurn_local _ _ _ _ _ _ Hchat).
  - intros Hcase.
    assert (Hopen : startTurn selectAgent generateImageUrl env rendered messageText
                              imageAttachment w =
                    openStream env rendered messageText imageAttachment lower
                               (selectAgent messageText)
                               (agentNameOf selectAgent messageText)
                               (placeholderIdFor env)
                               (appended selectAgent env messageText imageAttachment w)).
    { destruct imageAttachment as [a|]; [exact Hchat|].
      destruct Hcase as [Hc|[Ht Hq]]; [congruence|].
      now rewrite Ht, Hq, andb_false_r in Hchat. }
    subst lower.
    destruct (JS.truthy_opt (apiKey env)) eqn:Hkey.
    + rewrite (openStream_key env rendered messageText imageAttachment w Hkey) in Hopen.
      unfold w'. rewrite (sendMessage_streamed _ _ _ _ _ _ _ Hopen).
      rewrite (emitted_app w _ (networkEffects selectAgent env rendered messageText
                                               imageAttachment))
        by now rewrite streamed_effects.
      unfold networkEffects, networkCalls.
      destruct (isMapQuery messageText); reflexivity.
    + rewrite (openStream_nokey _ _ _ _ _ _ _ _ _ Hkey) in Hopen.
      exact (proj1 (startTurn_local _ _ _ _ _ _ Hopen)).
Qed.

(** ** Turns that reach the completion service *)

Lemma startTurn_network env rendered t img w :
  reachesNetwork env rendered t img = true ->
  startTurn selectAgent generateImageUrl env rendered t img w =
  (Some (placeholderIdFor env), opened selectAgent env rendered t img w).
Proof.
  unfold reachesNetwork. intro H.
  apply andb_prop in H as [H Hkey]. apply andb_prop in H as [H Hsc].
  apply andb_prop in H as [Hrej Himg].
  apply negb_true_iff in Hrej, Himg, Hsc.
  rewrite (startTurn_chat env _ _ _ w Hrej Himg). cbv zeta.
  unfold shortCircuited in Hsc.
  destruct img.
  - now apply openStream_key.
  - apply orb_false_elim in Hsc as [-> ->]. now apply openStream_key.
Qed.

(** The four ways [startTurn] can leave the state. *)
Lemma startTurn_worlds env rendered t img w :
  (rejected rendered t img = true
   /\ startTurn selectAgent generateImageUrl env rendered t img w = (None, w))
  \/ (rejected rendered t img = false /\ isImageCommand t = true
      /\ startTurn selectAgent generateImageUrl env rendered t img w =
         (None,
          {| messages :=
               (messages w
                ++ [userMessageOf (userMsgIdOf env) t img;
                    imageMessage (placeholderIdFor env)
                                 (generateImageUrl (JS.substring 7 (JS.trim t)))])%list;
             input := EmptyString; attachment := None;
             effects := (effects w ++ [GenerateImageUrl (JS.substring 7 (JS.trim t))])%list |}))
  \/ (rejected rendered t img = false /\ reachesNetwork env rendered t img = false
      /\ exists answer,
          startTurn selectAgent generateImageUrl env rendered t img w =
          (None, answered (placeholderIdFor env) answer (appended selectAgent env t img w)))
  \/ (rejected rendered t img = false /\ reachesNetwork env rendered t img = true
      /\ startTurn selectAgent generateImageUrl env rendered t img w =
         (Some (placeholderIdFor env), opened selectAgent env rendered t img w)).
Proof.
  destruct (rejected rendered t img) eqn:Hrej.
  { left. split; [reflexivity|]. now apply startTurn_rejected. }
  destruct (isImageCommand t) eqn:Himg.
  { right; left. repeat split. now apply startTurn_image. }
  destruct (reachesNetwork env rendered t img) eqn:Hnet.
  { right; right; right. repeat split. now apply startTurn_network. }
  right; right; left. repeat split.
  unfold reachesNetwork in Hnet. rewrite Hrej, Himg in Hnet. cbn [negb andb] in Hnet.
  rewrite (startTurn_chat env _ _ _ w Hrej Himg). cbv zeta.
  unfold shortCircuited in Hnet.
  destruct img as [a|].
  - cbn [negb andb] in Hnet. eexists. now apply openStream_nokey.
  - destruct (JS.test timeRegex _); [eexists; reflexivity|].
    destruct (JS.test creatorRegex _ && negb _); [eexists; reflexivity|].
    cbn [orb negb andb] in Hnet. eexists. now apply openStream_nokey.
Qed.

Lemma sendMessage_network env rendered t img w :
  reachesNetwork env rendered t img = true ->
  exec (sendMessage selectAgent generateImageUrl env rendered t img) w =
  streamed (placeholderIdFor env) (response env) (opened selectAgent env rendered t img w).
Proof.
  intro H. apply sendMessage_streamed. now apply startTurn_network.
Qed.

Lemma emitted_network env rendered t img w :
  reachesNetwork env rendered t img = true ->
  emitted w (exec (sendMessage selectAgent generateImageUrl env rendered t img) w)
  = networkEffects selectAgent env rendered t img.
Proof.
  intro H. rewrite (sendMessage_network _ _ _ _ w H).
  apply emitted_app. now rewrite streamed_effects.
Qed.

(** A turn that does not get as far as the streaming call sends nothing and
    does not ask for the position. *)
Lemma emitted_offline env rendered t img w :
  reachesNetwork env rendered t img = false ->
  let w' := exec (sendMessage selectAgent generateImageUrl env rendered t img) w in
  networkCalls (emitted w w') = [] /\ filter isGeoCall (emitted w w') = [].
Proof.
  intros Hnet w'. unfold w', exec.
  destruct (startTurn_worlds env rendered t img w)
    as [[_ H]|[(_ & _ & H)|[(_ & _ & answer & H)|(_ & Hnet' & _)]]];
    [| | |congruence];
    rewrite (sendMessage_finished _ _ _ _ _ _ H); cbn [snd].
  - now rewrite emitted_nothing.
  - erewrite emitted_app by reflexivity. split; reflexivity.
  - rewrite emitted_answered. split; reflexivity.
Qed.

(** A request in the effects of a turn is the one [requestOf] describes, and
    the turn is one that reaches the network. *)
Lemma request_emitted env rendered t img w req :
  In (GenerateContentStream req)
     (emitted w (exec (sendMessage selectAgent generateImageUrl env rendered t img) w)) ->
  reachesNetwork env rendered t img = true
  /\ req = requestOf selectAgent env rendered t img.
Proof.
  intro Hin.
  destruct (reachesNetwork env rendered t img) eqn:Hnet.
  - split; [reflexivity|].
    rewrite (emitted_network _ _ _ _ w Hnet) in Hin.
    unfold networkEffects in Hin.
    destruct (isMapQuery t); cbn in Hin;
      repeat (destruct Hin as [Hin|Hin]; try discriminate; try contradiction);
      now injection Hin as <-.
  - exfalso. destruct (emitted_offline _ _ _ _ w Hnet) as [Hno _].
    assert (Hf : In (GenerateContentStream req)
                    (networkCalls (emitted w (exec (sendMessage selectAgent generateImageUrl
                                                                env rendered t img) w)))).
    { apply filter_In. split; [exact Hin|reflexivity]. }
    rewrite Hno in Hf. contradiction.
Qed.

(** The transcript when the stream of a turn is over. *)
Lemma streamed_opened_messages env rendered t img w :
  let F := fun m =>
             let m' := streamUpdate initialAccum (chunks (response env)) m in
             match failure (response env) with
             | Some error => withText (connectionError error) m'
             | None => m'
             end in
  messages (streamed (placeholderIdFor env) (response env)
                     (opened selectAgent env rendered t img w)) =
  (patch (placeholderIdFor env) F (messages w)
   ++ [userMessageOf (userMsgIdOf env) t img;
       F (placeholder (placeholderIdFor env) (agentNameOf selectAgent t))])%list.
Proof.
  intro F. rewrite streamed_spec. fold F.
  unfold withMessages, opened, appended; cbn [messages].
  rewrite patch_app. f_equal. unfold patch; cbn [map].
  now rewrite hasId_userMessage, hasId_placeholder.
Qed.

Lemma isBusy_app (l1 l2 : list Message) :
  isBusy (l1 ++ l2) = isBusy l1 || isBusy l2.
Proof. apply existsb_app. Qed.

Lemma isBusy_patch_quiet (i : string) (F : Message -> Message) (l : list Message) :
  isBusy l = false ->
  (forall m, JS.truthy_flag (isLoading (F m)) = false) ->
  isBusy (patch i F l) = false.
Proof.
  intros Hl HF. unfold isBusy, patch in *.
  induction l as [|m l IH]; [reflexivity|].
  cbn [map existsb] in Hl |- *. apply orb_false_elim in Hl as [Hm Hl].
  rewrite (IH Hl), orb_false_r.
  destruct (hasId i m); [apply HF | exact Hm].
Qed.

Lemma rejected_false_idle (rendered : list Message) t img :
  rejected rendered t img = false -> isBusy rendered = false.
Proof. unfold rejected. intro H. now apply orb_false_elim in H. Qed.

Lemma reachesNetwork_accepted env rendered t img :
  reachesNetwork env rendered t img = true -> rejected rendered t img = false.
Proof.
  unfold reachesNetwork. intro H.
  apply andb_prop in H as [H _]. apply andb_prop in H as [H _].
  apply andb_prop in H as [H _]. now apply negb_true_iff in H.
Qed.

(** Every accepted submission appends its user message and one model message
    with the placeholder's id; older messages change only where they carry
    that same id. *)
Lemma accepted_turn_shape env rendered t img w :
  rejected rendered t img = false ->
  exists F reply,
    messages (exec (sendMessage selectAgent generateImageUrl env rendered t img) w) =
    (patch (placeholderIdFor env) F (messages w)
     ++ [userMessageOf (userMsgIdOf env) t img; reply])%list
    /\ role reply = MODEL
    /\ id reply = Some (placeholderIdFor env).
Proof.
  intro Hrej. unfold exec.
  destruct (startTurn_worlds env rendered t img w)
    as [[H _]|[(_ & _ & H)|[(_ & _ & answer & H)|(_ & Hnet & _)]]].
  - congruence.
  - rewrite (sendMessage_finished _ _ _ _ _ _ H). cbn [snd messages].
    exists (fun m => m). eexists. rewrite patch_id. repeat split.
  - rewrite (sendMessage_finished _ _ _ _ _ _ H). cbn [snd].
    rewrite answered_appended. do 2 eexists. repeat split.
  - fold (exec (sendMessage selectAgent generateImageUrl env rendered t img) w).
    rewrite (sendMessage_network _ _ _ _ w Hnet), streamed_opened_messages.
    do 2 eexists. split; [reflexivity|].
    destruct (fixed_fields_streamUpdate (chunks (response env)) initialAccum
                (placeholder (placeholderIdFor env) (agentNameOf selectAgent t)))
      as (Hid & Hrole & _).
    destruct (failure (response env)); cbn; now rewrite ?Hid, ?Hrole.
Qed.

Lemma connectionError_detail (error : JsError) :
  connectionError error = ("Connection Error: " ++ errorDetail error)%string.
Proof.
  unfold connectionError, errorDetail, JS.truthy_opt.
  destruct (message error) as [s|]; [destruct (JS.truthy s)|]; reflexivity.
Qed.

(** [reachesNetwork] holds exactly of the turns that send a request. *)
Lemma reachesNetwork_iff env rendered t img w :
  reachesNetwork env rendered t img = true
  <-> networkCalls
        (emitted w (exec (sendMessage selectAgent generateImageUrl env rendered t img) w))
      <> [].
Proof.
  split.
  - intro H. rewrite (emitted_network _ _ _ _ w H).
    unfold networkEffects, networkCalls. destruct (isMapQuery t); discriminate.
  - intro H. destruct (reachesNetwork env rendered t img) eqn:E; [reflexivity|].
    destruct (emitted_offline _ _ _ _ w E) as [Hno _]. contradiction.
Qed.

(** ** Failure of the streaming call *)

(** C3: when a turn that has reached the streaming call fails, before the
    first chunk or after any number of them, the placeholder, last in the
    transcript, has as its text the connection-error message with the error
    detail and nothing of what was streamed; it is no longer loading and its
    text is not empty.  The one request of the turn is the only one, and the
    transcript is left idle: any later submission with a text or an image is
    accepted and appends its own two messages. *)
Theorem network_error_replaces_text env messageText imageAttachment w cs error :
  reachesNetwork env (messages w) messageText imageAttachment = true ->
  response env = {| chunks := cs; failure := Some error |} ->
  let w' := submit selectAgent generateImageUrl env messageText imageAttachment w in
  exists before ph,
    messages w' = (before ++ [ph])%list
    /\ List.length before = List.length (messages w) + 1
    /\ id ph = Some (placeholderIdFor env)
    /\ text ph = ("Connection Error: " ++ errorDetail error)%string
    /\ text ph <> EmptyString
    /\ isLoading ph = Some false
    /\ List.length (networkCalls (emitted w w')) = 1
    /\ isBusy (messages w') = false
    /\ forall env2 text2 image2,
         JS.truthy (JS.trim text2) = true \/ image2 <> None ->
         exists before2 user2 reply2,
           messages (submit selectAgent generateImageUrl env2 text2 image2 w')
           = (before2 ++ [user2; reply2])%list
           /\ List.length before2 = List.length (messages w')
           /\ role user2 = USER /\ text user2 = JS.trim text2
           /\ role reply2 = MODEL.
Proof.
  intros Hnet Hresp w'.
  pose proof (reachesNetwork_accepted _ _ _ _ Hnet) as Hrej.
  pose proof (rejected_false_idle _ _ _ Hrej) as Hidle.
  set (F := fun m => withText (connectionError error) (streamUpdate initialAccum cs m)).
  assert (Hm : messages w' =
               (patch (placeholderIdFor env) F (messages w)
                ++ [userMessageOf (userMsgIdOf env) messageText imageAttachment;
                    F (placeholder (placeholderIdFor env)
                                   (agentNameOf selectAgent messageText))])%list).
  { unfold w', submit. rewrite (sendMessage_network _ _ _ _ w Hnet).
    rewrite streamed_opened_messages, Hresp. reflexivity. }
  assert (Hquiet : isBusy (messages w') = false).
  { rewrite Hm, isBusy_app.
    rewrite (isBusy_patch_quiet _ F _ Hidle) by reflexivity. reflexivity. }
  exists (patch (placeholderIdFor env) F (messages w)
          ++ [userMessageOf (userMsgIdOf env) messageText imageAttachment])%list,
         (F (placeholder (placeholderIdFor env) (agentNameOf selectAgent messageText))).
  split; [now rewrite Hm, <- app_assoc|].
  split; [now rewrite length_app, patch_length|].
  split.
  { unfold F. cbn [withText id].
    now destruct (fixed_fields_streamUpdate cs initialAccum
                    (placeholder (placeholderIdFor env)
                                 (agentNameOf selectAgent messageText))) as (-> & _). }
  split; [unfold F; cbn [withText text]; apply connectionError_detail|].
  split; [unfold F; cbn [withText text]; rewrite connectionError_detail; discriminate|].
  split; [reflexivity|].
  split.
  { unfold w', submit. rewrite (emitted_network _ _ _ _ w Hnet).
    unfold networkEffects, networkCalls. destruct (isMapQuery messageText); reflexivity. }
  split; [exact Hquiet|].
  intros env2 text2 image2 Hin.
  assert (Hacc : rejected (messages w') text2 image2 = false).
  { unfold rejected. rewrite Hquiet, orb_false_r.
    destruct Hin as [-> | Himg]; [reflexivity|].
    destruct image2; [now rewrite andb_false_r | congruence]. }
  destruct (accepted_turn_shape env2 (messages w') text2 image2 w' Hacc)
    as (F2 & reply2 & E & Hrole & _).
  exists (patch (placeholderIdFor env2) F2 (messages w')),
         (userMessageOf (userMsgIdOf env2) text2 image2), reply2.
  unfold submit. rewrite E. rewrite patch_length. repeat split. exact Hrole.
Qed.

(** ** Tools and position *)

Lemma existsb_incl {A : Type} (f : A -> bool) (l1 l2 : list A) :
  incl l1 l2 -> existsb f l1 = true -> existsb f l2 = true.
Proof.
  intros Hi H. apply existsb_exists in H as (x & Hx & Hf).
  apply existsb_exists. exists x. auto.
Qed.

(** A pattern with more alternatives matches at least as much. *)
Lemma test_more_alternatives (re1 re2 : JS.RegExp) (s : string) :
  JS.ignoreCase re1 = JS.ignoreCase re2 ->
  incl (JS.alternatives re1) (JS.alternatives re2) ->
  JS.test re1 s = true -> JS.test re2 s = true.
Proof.
  intros Hi Hincl. unfold JS.test. generalize (@None ascii) as prev.
  induction s as [|c s IH]; intro prev; cbn [JS.testFrom];
    rewrite !orb_true_iff; intros [H|H].
  - left. unfold JS.matchHere in *. apply andb_prop in H as [-> H].
    rewrite <- Hi. cbn [andb]. exact (existsb_incl _ _ _ Hincl H).
  - discriminate.
  - left. unfold JS.matchHere in *. apply andb_prop in H as [-> H].
    rewrite <- Hi. cbn [andb]. exact (existsb_incl _ _ _ Hincl H).
  - right. now apply IH.
Qed.

(** Every text that matches the five words of the specification matches the
    pattern of the code. *)
Lemma spec_pattern_included (s : string) :
  JS.test specMapPattern s = true -> JS.test mapRegex s = true.
Proof.
  apply test_more_alternatives; [reflexivity|].
  intros x Hx. cbn in Hx |- *. intuition.
Qed.

(** C6, as amended: in every turn that reaches the streaming call there is
    exactly one request; the web-search tool is among its tools; the maps
    tool is among them exactly when the lowercased trimmed text matches
    [/\b(near|nearby|location|place|restaurant|cafe|hotel|park|address|direction|where is|at)\b/i];
    the position is asked for, once and with a timeout of 10000 ms, in that
    case and in no other; a position that arrives becomes the retrieval
    bias, and when the position request fails the same request is sent
    without bias and the transcript ends as it would have with a position. *)
Theorem tools_and_geolocation env rendered messageText imageAttachment w :
  reachesNetwork env rendered messageText imageAttachment = true ->
  let lowerCaseInput := JS.toLowerCase (JS.trim messageText) in
  let w' := exec (sendMessage selectAgent generateImageUrl env rendered
                              messageText imageAttachment) w in
  exists req,
    networkCalls (emitted w w') = [GenerateContentStream req]
    /\ In GoogleSearch (tools req)
    /\ (In GoogleMaps (tools req) <-> JS.test mapRegex lowerCaseInput = true)
    /\ filter isGeoCall (emitted w w')
       = (if JS.test mapRegex lowerCaseInput then [GetCurrentPosition 10000%Z] else [])
    /\ toolConfig req
       = (if JS.test mapRegex lowerCaseInput
          then match geolocation env with
               | GeoResolved pos => Some pos
               | GeoRejected => None
               end
          else None)
    /\ (let failedEnv := withGeolocation GeoRejected env in
        let w'' := exec (sendMessage selectAgent generateImageUrl failedEnv rendered
                                     messageText imageAttachment) w in
        exists req'',
          networkCalls (emitted w w'') = [GenerateContentStream req'']
          /\ toolConfig req'' = None
          /\ tools req'' = tools req
          /\ contents req'' = contents req
          /\ messages w'' = messages w').
Proof.
  intros Hnet lower w'.
  exists (requestOf selectAgent env rendered messageText imageAttachment).
  unfold w'. rewrite (emitted_network _ _ _ _ w Hnet).
  unfold networkEffects, requestOf, isMapQuery; fold lower; cbn [tools toolConfig].
  split; [destruct (JS.test mapRegex lower); reflexivity|].
  split; [destruct (JS.test mapRegex lower); cbn; auto|].
  split.
  { destruct (JS.test mapRegex lower); cbn; split; intro H; auto; try discriminate.
    destruct H as [H|[]]; discriminate. }
  split; [destruct (JS.test mapRegex lower); reflexivity|].
  split; [reflexivity|].
  cbv zeta.
  assert (Hnet' : reachesNetwork (withGeolocation GeoRejected env) rendered
                                 messageText imageAttachment = true) by exact Hnet.
  exists (requestOf selectAgent (withGeolocation GeoRejected env) rendered
                    messageText imageAttachment).
  rewrite (emitted_network _ _ _ _ w Hnet').
  rewrite (sendMessage_network _ _ _ _ w Hnet), (sendMessage_network _ _ _ _ w Hnet').
  rewrite !streamed_opened_messages.
  unfold networkEffects, requestOf, isMapQuery; fold lower; cbn [tools toolConfig contents].
  split; [destruct (JS.test mapRegex lower); reflexivity|].
  split; [destruct (JS.test mapRegex lower); reflexivity|].
  repeat split.
Qed.

(** ** The outbound history *)

Lemma filter_idle (l : list Message) :
  isBusy l = false ->
  filter (fun m => negb (JS.truthy_flag (isLoading m))) l = l.
Proof.
  unfold isBusy. induction l as [|m l IH]; intro H; [reflexivity|].
  cbn [existsb filter] in *. apply orb_false_elim in H as [-> H].
  cbn [negb]. now rewrite IH.
Qed.

Lemma historyForAPI_entries (l : list Message) :
  Forall2 (fun m c => contentRole c = role m /\ parts c = [PartText (text m)])
          (filter (fun m => negb (JS.truthy_flag (isLoading m))) l)
          (historyForAPI l).
Proof.
  unfold historyForAPI.
  induction (filter (fun m => negb (JS.truthy_flag (isLoading m))) l) as [|m l' IH];
    cbn [map]; constructor; auto.
Qed.

Lemma historyForAPI_no_images (l : list Message) : inlineImages (historyForAPI l) = [].
Proof.
  unfold historyForAPI, inlineImages.
  induction (filter (fun m => negb (JS.truthy_flag (isLoading m))) l) as [|m l' IH];
    cbn; auto.
Qed.

Lemma inlineImages_app (a b : list Content) :
  inlineImages (a ++ b) = (inlineImages a ++ inlineImages b)%list.
Proof. unfold inlineImages. apply flat_map_app. Qed.

(** C10: whatever request a turn sends, its contents are one entry per prior
    message that is not loading (and in such a turn none is), in order, each
    with the message's role and a single text part holding the message's text,
    followed by the entry of the current turn.  The history part has no
    inline image, whatever images the prior messages carry; the inline images
    of the whole request are exactly the current attachment, if there is one. *)
Theorem history_carries_role_and_text env rendered messageText imageAttachment w req :
  In (GenerateContentStream req)
     (emitted w (exec (sendMessage selectAgent generateImageUrl env rendered
                                   messageText imageAttachment) w)) ->
  exists history current,
    contents req = (history ++ [current])%list
    /\ Forall2 (fun m c => contentRole c = role m /\ parts c = [PartText (text m)])
               (filter (fun m => negb (JS.truthy_flag (isLoading m))) rendered)
               history
    /\ filter (fun m => negb (JS.truthy_flag (isLoading m))) rendered = rendered
    /\ inlineImages history = []
    /\ contentRole current = USER
    /\ inlineImages (contents req)
       = match imageAttachment with
         | Some a => [(mimeType a, data a)]
         | None => []
         end.
Proof.
  intro Hin. destruct (request_emitted _ _ _ _ _ _ Hin) as [Hnet ->].
  exists (historyForAPI rendered),
         {| contentRole := USER; parts := currentParts messageText imageAttachment |}.
  split; [reflexivity|].
  split; [apply historyForAPI_entries|].
  split.
  { apply filter_idle. eapply rejected_false_idle.
    eapply reachesNetwork_accepted. exact Hnet. }
  split; [apply historyForAPI_no_images|].
  split; [reflexivity|].
  cbn [contents requestOf]. rewrite inlineImages_app, historyForAPI_no_images.
  unfold inlineImages, currentParts; cbn.
  destruct (JS.truthy (JS.trim messageText)), imageAttachment; reflexivity.
Qed.

(** ** One turn in flight *)

Lemma loadingCount_app (l1 l2 : list Message) :
  loadingCount (l1 ++ l2) = loadingCount l1 + loadingCount l2.
Proof. unfold loadingCount. now rewrite filter_app, length_app. Qed.

Lemma idle_count (l : list Message) : isBusy l = false -> loadingCount l = 0.
Proof.
  unfold isBusy, loadingCount. induction l as [|m l IH]; intro H; [reflexivity|].
  cbn [existsb filter] in *. apply orb_false_elim in H as [-> H]. auto.
Qed.

Lemma loadingCount_patch (i : string) (F : Message -> Message) (l : list Message) :
  (forall m, JS.truthy_flag (isLoading (F m)) = true ->
             JS.truthy_flag (isLoading m) = true) ->
  loadingCount (patch i F l) <= loadingCount l.
Proof.
  intro HF. unfold loadingCount, patch.
  induction l as [|m l IH]; [reflexivity|].
  cbn [map filter].
  destruct (hasId i m).
  - destruct (JS.truthy_flag (isLoading (F m))) eqn:E.
    + rewrite (HF m E). cbn [List.length]. lia.
    + destruct (JS.truthy_flag (isLoading m)); cbn [List.length]; lia.
  - destruct (JS.truthy_flag (isLoading m)); cbn [List.length]; lia.
Qed.

Lemma chunkUpdate_quiet (st : Accum) (c : Chunk) (m : Message) :
  JS.truthy_flag (isLoading (chunkUpdate st c m)) = true ->
  JS.truthy_flag (isLoading m) = true.
Proof.
  unfold chunkUpdate. destruct (hasText c), (hasCitations c); cbn; auto; discriminate.
Qed.

Lemma startTurn_count env t img w :
  loadingCount (messages w) <= 1 ->
  loadingCount
    (messages (snd (startTurn selectAgent generateImageUrl env (messages w) t img w))) <= 1.
Proof.
  intro Hw.
  destruct (startTurn_worlds env (messages w) t img w)
    as [[_ H]|[(Hrej & _ & H)|[(Hrej & _ & answer & H)|(Hrej & _ & H)]]];
    rewrite H; cbn [snd]; [exact Hw| | |];
    pose proof (idle_count _ (rejected_false_idle _ _ _ Hrej)) as H0.
  - cbn [messages]. rewrite loadingCount_app, H0. cbn. lia.
  - etransitivity; [apply loadingCount_patch; intro m; cbn; discriminate|].
    unfold appended; cbn [messages]. rewrite loadingCount_app, H0. cbn. lia.
  - unfold opened, appended; cbn [messages]. rewrite loadingCount_app, H0. cbn. lia.
Qed.

Lemma Forall_removeAt {A : Type} (P : A -> Prop) (l : list A) :
  Forall P l -> forall i, Forall P (removeAt i l).
Proof.
  induction 1 as [|x l Hx Hl IH]; intros [|i]; cbn [removeAt]; auto.
Qed.

(** While a message is loading, a call of [sendMessage] is over at its
    guard: the state is the one before and nothing is emitted. *)
Lemma call_while_loading (a : App) :
  isBusy (messages (world a)) = true ->
  forall env messageText imageAttachment,
    call selectAgent generateImageUrl env messageText imageAttachment a = a
    /\ send selectAgent generateImageUrl env messageText imageAttachment a = a
    /\ submit selectAgent generateImageUrl env messageText imageAttachment (world a)
       = world a
    /\ emitted (world a)
               (submit selectAgent generateImageUrl env messageText imageAttachment
                       (world a)) = [].
Proof.
  intros Hbusy env t img.
  assert (Hrej : rejected (messages (world a)) t img = true).
  { unfold rejected. rewrite Hbusy. apply orb_true_r. }
  pose proof (startTurn_rejected env _ _ _ (world a) Hrej) as Hst.
  assert (Hsub : submit selectAgent generateImageUrl env t img (world a) = world a).
  { unfold submit, exec. now rewrite (sendMessage_finished _ _ _ _ _ _ Hst). }
  rewrite Hsub. split; [|split; [|split; [reflexivity | apply emitted_nothing]]].
  - unfold call. fold (rejected (messages (world a)) t img). now rewrite Hrej.
  - unfold send, proceed. rewrite Hst. now destruct a.
Qed.

(** A submission whose classifier settles at once is two events in a row. *)
Lemma reachable_send (a : App) env messageText imageAttachment :
  reachable selectAgent generateImageUrl a ->
  reachable selectAgent generateImageUrl
            (send selectAgent generateImageUrl env messageText imageAttachment a).
Proof.
  intro Hreach.
  pose proof (@step_call selectAgent generateImageUrl env messageText imageAttachment a)
    as Hcall.
  unfold call in Hcall.
  fold (rejected (messages (world a)) messageText imageAttachment) in Hcall.
  fold (isImageCommand messageText) in Hcall.
  destruct (rejected (messages (world a)) messageText imageAttachment) eqn:Hrej.
  - unfold send, proceed.
    rewrite (startTurn_rejected env _ _ _ (world a) Hrej).
    now destruct a.
  - destruct (isImageCommand messageText) eqn:Himg.
    + exact (@reachable_step _ _ _ _ Hreach Hcall).
    + pose proof (@reachable_step _ _ _ _ Hreach Hcall) as Hqueued.
      assert (Hresume :
                step selectAgent generateImageUrl _
                     (resume selectAgent generateImageUrl
                             {| callEnv := env; callRendered := messages (world a);
                                callText := messageText;
                                callImage := imageAttachment |}
                             (awaiting a ++ [])
                             {| world := world a; chatHistory := chatHistory a;
                                inflight := inflight a;
                                awaiting :=
                                  (awaiting a
                                   ++ [{| callEnv := env;
                                          callRendered := messages (world a);
                                          callText := messageText;
                                          callImage := imageAttachment |}])%list |}))
        by (apply step_resume; reflexivity).
      pose proof (@reachable_step _ _ _ _ Hqueued Hresume) as Hdone.
      unfold resume, proceed in Hdone.
      cbn [world chatHistory inflight awaiting callEnv callRendered callText callImage]
        in Hdone.
      unfold send, proceed.
      destruct (startTurn selectAgent generateImageUrl env (messages (world a))
                          messageText imageAttachment (world a)) as [started w'].
      cbn [world chatHistory inflight awaiting] in Hdone.
      now rewrite app_nil_r in Hdone.
Qed.

(** ** The placeholder while the stream runs *)

(** After any run of chunks the placeholder is still loading with an empty
    text when none of them had a text fragment, and is not loading, with the
    fragments joined as its text, from the first fragment on. *)
Lemma placeholder_while_streaming (cs : list Chunk) (pid agent : string) :
  let ph := streamUpdate initialAccum cs (placeholder pid agent) in
  id ph = Some pid
  /\ text ph = fold_right String.append EmptyString (map textOf cs)
  /\ isLoading ph = (if existsb hasText cs then Some false else Some true)
  /\ (existsb hasText cs = false -> text ph = EmptyString).
Proof.
  intro ph. unfold ph.
  destruct (fixed_fields_streamUpdate cs initialAccum (placeholder pid agent)) as (Hid & _).
  assert (Htext : text (streamUpdate initialAccum cs (placeholder pid agent))
                  = fold_right String.append EmptyString (map textOf cs)).
  { rewrite (text_streamUpdate cs initialAccum (placeholder pid agent) eq_refl).
    now rewrite fullText_fold. }
  split; [exact Hid|]. split; [exact Htext|].
  split; [now rewrite isLoading_streamUpdate|].
  intro Hno. rewrite Htext. clear -Hno.
  induction cs as [|c cs IH]; [reflexivity|].
  cbn [existsb map fold_right] in *. apply orb_false_elim in Hno as [Hc Hno].
  rewrite (IH Hno). unfold hasText in Hc.
  destruct (textOf c); [reflexivity|discriminate].
Qed.

(** The text only grows and the accumulated sources only grow. *)
Lemma streaming_grows (st : Accum) (c : Chunk) :
  JS.startsWith (fullText (nextAccum st c)) (fullText st) = true
  /\ exists more, accumulatedSources (nextAccum st c)
                  = (accumulatedSources st ++ more)%list.
Proof.
  split.
  - cbn [nextAccum fullText]. generalize (textOf c) as t.
    induction (fullText st) as [|x s IH]; intro t; [reflexivity|].
    cbn. now rewrite Ascii.eqb_refl, IH.
  - eexists. reflexivity.
Qed.

(** A stream that ends normally leaves the placeholder loading exactly when
    no chunk had a text fragment; a stream that fails never does. *)
Lemma placeholder_at_stream_end env rendered t img w :
  reachesNetwork env rendered t img = true ->
  let w' := exec (sendMessage selectAgent generateImageUrl env rendered t img) w in
  exists before ph,
    messages w' = (before ++ [ph])%list
    /\ id ph = Some (placeholderIdFor env)
    /\ isLoading ph =
       match failure (response env) with
       | Some _ => Some false
       | None => if existsb hasText (chunks (response env))
                 then Some false else Some true
       end.
Proof.
  intros Hnet w'. unfold w'.
  rewrite (sendMessage_network _ _ _ _ w Hnet), streamed_opened_messages.
  cbv zeta.
  destruct (placeholder_while_streaming (chunks (response env)) (placeholderIdFor env)
              (agentNameOf selectAgent t)) as (Hid & _ & Hload & _).
  eexists (_ ++ [_])%list, _. split; [now rewrite <- app_assoc|].
  destruct (failure (response env)); cbn [withText id isLoading]; auto.
Qed.

End Properties.

(** * Worked runs *)

(** C1 (defect of the code): one chunk that cites the same URI twice.  The
    filter of [mergeSources] compares with the sources accumulated before the
    chunk only, so both entries are kept and the placeholder ends with two
    sources of one URI. *)
Theorem duplicate_uri_within_one_chunk :
  let answer :=
    Sample.ended
      [Sample.chunk (Some "Paris.")
                    [Sample.cite "https://a.example/paris" "Paris";
                     Sample.cite "https://a.example/paris" "Paris - guide"]] in
  let w' := submit Sample.selectAgent Sample.generateImageUrl
                   (Sample.env (Some "key") GeoRejected answer)
                   "capital of France?" None Sample.idle in
  exists ph,
    lastMessage (messages w') = Some ph
    /\ text ph = "Paris."
    /\ sources ph = Some [ {| title := Some "Paris"; uri := Some "https://a.example/paris" |};
                            {| title := Some "Paris - guide";
                               uri := Some "https://a.example/paris" |} ]
    /\ ~ NoDup (uris [ {| title := Some "Paris"; uri := Some "https://a.example/paris" |};
                       {| title := Some "Paris - guide";
                          uri := Some "https://a.example/paris" |} ]).
Proof.
  cbv zeta. eexists. split; [vm_compute; reflexivity|].
  split; [reflexivity|]. split; [reflexivity|].
  intro H. inversion H as [|x l Hnotin _]; subst. apply Hnotin. now left.
Qed.

(** C2 (defect of the code): a stream whose only chunk has no text and that
    ends normally.  Nothing after the loop touches the placeholder, so it
    stays as created, loading with an empty text, and the transcript stays
    busy: the next submission is rejected by the guard. *)
Theorem stream_without_text_stays_loading :
  let answer :=
    Sample.ended [ {| chunkText := None;
                      candidates := Some [ {| groundingMetadata := None |} ] |} ] in
  let w' := submit Sample.selectAgent Sample.generateImageUrl
                   (Sample.env (Some "key") GeoRejected answer)
                   "hello" None Sample.idle in
  failure answer = None
  /\ lastMessage (messages w') = Some (placeholder "1700000000000-model" "Zephyr")
  /\ isBusy (messages w') = true
  /\ submit Sample.selectAgent Sample.generateImageUrl
            (Sample.env (Some "key") GeoRejected answer) "are you there?" None w' = w'.
Proof. cbv zeta. repeat split; vm_compute; reflexivity. Qed.

(** C4, the claim as first stated: with a turn in flight the guard returns
    before the [/image] branch, and nothing is appended. *)
Lemma image_command_rejected_while_loading :
  let w' := submit Sample.selectAgent Sample.generateImageUrl
                   (Sample.env (Some "key") GeoRejected (Sample.ended []))
                   "/image a cat" None Sample.busy in
  JS.startsWith (JS.trim "/image a cat") "/image " = true
  /\ JS.truthy (JS.substring 7 (JS.trim "/image a cat")) = true
  /\ w' = Sample.busy
  /\ List.length (messages w') <> List.length (messages Sample.busy) + 2
  /\ ~ exists m, In m (messages w') /\ type m = Some TypeImage.
Proof.
  cbv zeta. split; [reflexivity|]. split; [reflexivity|]. split; [reflexivity|].
  split; [vm_compute; discriminate|].
  intros (m & Hin & Ht). vm_compute in Hin.
  destruct Hin as [<-|[<-|[]]]; discriminate.
Qed.

(** C6, the claim as first stated: a text with none of the words nearby,
    location, place, address, where is, for which the maps tool is enabled
    and the position asked for all the same (it has the word [at]). *)
Lemma maps_tool_outside_spec_pattern :
  let w' := submit Sample.selectAgent Sample.generateImageUrl
                   (Sample.env (Some "key") GeoRejected (Sample.ended []))
                   "Look at this" None Sample.idle in
  JS.test specMapPattern (JS.toLowerCase (JS.trim "Look at this")) = false
  /\ exists req,
      networkCalls (emitted Sample.idle w') = [GenerateContentStream req]
      /\ tools req = [GoogleSearch; GoogleMaps]
      /\ In (GetCurrentPosition 10000%Z) (emitted Sample.idle w').
Proof.
  cbv zeta. split; [reflexivity|].
  eexists. split; [vm_compute; reflexivity|].
  split; [reflexivity|]. vm_compute. right. left. reflexivity.
Qed.

(** ** The theorems at concrete inputs *)

Lemma empty_submission_is_noop_witness :
  JS.trim "   " = EmptyString
  /\ exec (sendMessage Sample.selectAgent Sample.generateImageUrl
                       (Sample.env (Some "key") GeoRejected (Sample.ended []))
                       (messages Sample.idle) "   " None) Sample.idle
     = Sample.idle.
Proof.
  split; [reflexivity|].
  apply (empty_submission_is_noop Sample.selectAgent Sample.generateImageUrl
           (Sample.env (Some "key") GeoRejected (Sample.ended []))
           (messages Sample.idle) "   " Sample.idle).
  reflexivity.
Defined.

Lemma image_command_answered_locally_witness :
  let w' := exec (sendMessage Sample.selectAgent Sample.generateImageUrl
                              (Sample.env None GeoRejected (Sample.ended []))
                              (messages Sample.idle) " /image a cat" None) Sample.idle in
  isBusy (messages Sample.idle) = false
  /\ JS.startsWith (JS.trim " /image a cat") "/image " = true
  /\ JS.truthy (JS.substring 7 (JS.trim " /image a cat")) = true
  /\ exists user reply,
      messages w' = [user; reply]
      /\ text reply = "https://image.example/prompt/a cat"
      /\ agentName reply = Some "Creative Agent"
      /\ emitted Sample.idle w' = [GenerateImageUrl "a cat"].
Proof.
  cbv zeta. split; [reflexivity|]. split; [reflexivity|]. split; [reflexivity|].
  destruct (image_command_answered_locally Sample.selectAgent Sample.generateImageUrl
              (Sample.env None GeoRejected (Sample.ended []))
              (messages Sample.idle) " /image a cat" None Sample.idle
              eq_refl eq_refl eq_refl)
    as (user & reply & Hm & _ & _ & _ & _ & Ht & Ha & _ & He & _).
  exists user, reply. repeat split; assumption.
Defined.

Lemma local_answers_in_order_witness :
  let t := "What time is it, and who made you?" in
  let w' := exec (sendMessage Sample.selectAgent Sample.generateImageUrl
                              (Sample.env (Some "key") GeoRejected (Sample.ended []))
                              (messages Sample.idle) t None) Sample.idle in
  rejected (messages Sample.idle) t None = false
  /\ isImageCommand t = false
  /\ JS.test timeRegex (JS.toLowerCase (JS.trim t)) = true
  /\ JS.test creatorRegex (JS.toLowerCase (JS.trim t)) = true
  /\ emitted Sample.idle w' = [SelectAgent t].
Proof.
  cbv zeta. split; [reflexivity|]. split; [reflexivity|].
  split; [reflexivity|]. split; [reflexivity|].
  destruct (local_answers_in_order Sample.selectAgent Sample.generateImageUrl
              (Sample.env (Some "key") GeoRejected (Sample.ended []))
              (messages Sample.idle) "What time is it, and who made you?" None
              Sample.idle eq_refl eq_refl) as [Htime _].
  exact (proj2 (Htime eq_refl eq_refl)).
Defined.

Lemma missing_api_key_witness :
  let w' := exec (sendMessage Sample.selectAgent Sample.generateImageUrl
                              (Sample.env None GeoRejected (Sample.ended []))
                              (messages Sample.idle) "hello" None) Sample.idle in
  rejected (messages Sample.idle) "hello" None = false
  /\ isImageCommand "hello" = false
  /\ shortCircuited "hello" None = false
  /\ JS.truthy_opt (apiKey (Sample.env None GeoRejected (Sample.ended []))) = false
  /\ emitted Sample.idle w' = [SelectAgent "hello"].
Proof.
  cbv zeta. split; [reflexivity|]. split; [reflexivity|].
  split; [reflexivity|]. split; [reflexivity|].
  exact (proj1 (proj2 (proj2 (proj2
           (missing_api_key Sample.selectAgent Sample.generateImageUrl
              (Sample.env None GeoRejected (Sample.ended []))
              (messages Sample.idle) "hello" None Sample.idle
              eq_refl eq_refl eq_refl eq_refl))))).
Defined.

Lemma network_error_replaces_text_witness :
  let env := Sample.env (Some "key") GeoRejected
                        (Sample.failed [Sample.chunk (Some "Par") []] Sample.boom) in
  let w' := submit Sample.selectAgent Sample.generateImageUrl env
                   "capital of France?" None Sample.idle in
  reachesNetwork env (messages Sample.idle) "capital of France?" None = true
  /\ exists before ph,
      messages w' = (before ++ [ph])%list
      /\ text ph = "Connection Error: Failed to fetch"
      /\ isLoading ph = Some false.
Proof.
  cbv zeta. split; [reflexivity|].
  destruct (network_error_replaces_text Sample.selectAgent Sample.generateImageUrl
              (Sample.env (Some "key") GeoRejected
                          (Sample.failed [Sample.chunk (Some "Par") []] Sample.boom))
              "capital of France?" None Sample.idle
              [Sample.chunk (Some "Par") []] Sample.boom eq_refl eq_refl)
    as (before & ph & Hm & _ & _ & Ht & _ & Hl & _).
  exists before, ph. repeat split; assumption.
Defined.

Lemma tools_and_geolocation_witness :
  let env := Sample.env (Some "key") GeoRejected (Sample.ended []) in
  let w' := exec (sendMessage Sample.selectAgent Sample.generateImageUrl env
                              (messages Sample.idle) "Where is the nearest cafe?" None)
                 Sample.idle in
  reachesNetwork env (messages Sample.idle) "Where is the nearest cafe?" None = true
  /\ exists req,
      networkCalls (emitted Sample.idle w') = [GenerateContentStream req]
      /\ In GoogleSearch (tools req)
      /\ toolConfig req = None.
Proof.
  cbv zeta. split; [reflexivity|].
  destruct (tools_and_geolocation Sample.selectAgent Sample.generateImageUrl
              (Sample.env (Some "key") GeoRejected (Sample.ended []))
              (messages Sample.idle) "Where is the nearest cafe?" None Sample.idle
              eq_refl)
    as (req & Hn & Hs & _ & _ & Hc & _).
  exists req. repeat split; assumption.
Defined.

Lemma history_carries_role_and_text_witness :
  let env := Sample.env (Some "key") GeoRejected (Sample.ended []) in
  let req := requestOf Sample.selectAgent env (messages Sample.withPicture)
                       "and this one?" (Some Sample.photo) in
  In (GenerateContentStream req)
     (emitted Sample.withPicture
              (exec (sendMessage Sample.selectAgent Sample.generateImageUrl env
                                 (messages Sample.withPicture) "and this one?"
                                 (Some Sample.photo)) Sample.withPicture))
  /\ inlineImages (contents req) = [("image/jpeg", "AAAA")].
Proof.
  cbv zeta.
  assert (Hin : In (GenerateContentStream
                      (requestOf Sample.selectAgent
                                 (Sample.env (Some "key") GeoRejected (Sample.ended []))
                                 (messages Sample.withPicture) "and this one?"
                                 (Some Sample.photo)))
                   (emitted Sample.withPicture
                      (exec (sendMessage Sample.selectAgent Sample.generateImageUrl
                               (Sample.env (Some "key") GeoRejected (Sample.ended []))
                               (messages Sample.withPicture) "and this one?"
                               (Some Sample.photo)) Sample.withPicture))).
  { right. left. reflexivity. }
  split; [exact Hin|].
  destruct (history_carries_role_and_text Sample.selectAgent Sample.generateImageUrl
              _ _ _ _ _ _ Hin) as (history & current & _ & _ & _ & _ & _ & Himg).
  exact Himg.
Defined.

(** C7: the guard alone does hold: while a message is loading, a call of
    [sendMessage] changes nothing.  The consequence drawn from it does not: a
    call that has passed the guard waits for [selectAgent] before it appends
    its placeholder, and a second call made in that window, on the same
    transcript, passes the guard too.  Two submissions on the empty
    transcript, the second before the classifier of the first has settled,
    are both waiting; once both have gone on, the transcript holds two
    loading messages, two streams are pending and two requests have been
    sent, in a state the component can reach. *)
Theorem two_submissions_before_the_classifier_settles :
  awaiting Cases.calledTwice = [Cases.firstCall; Cases.secondCall]
  /\ reachable Sample.selectAgent Sample.generateImageUrl Cases.raced
  /\ map isLoading (messages (world Cases.raced))
     = [None; Some true; None; Some true]
  /\ loadingCount (messages (world Cases.raced)) = 2
  /\ List.length (inflight Cases.raced) = 2
  /\ List.length (networkCalls (effects (world Cases.raced))) = 2
  /\ (forall env messageText imageAttachment,
        call Sample.selectAgent Sample.generateImageUrl env messageText
             imageAttachment Cases.raced = Cases.raced).
Proof.
  split; [reflexivity|]. split.
  - assert (Hcalled : reachable Sample.selectAgent Sample.generateImageUrl
                                Cases.calledTwice).
    { unfold Cases.calledTwice.
      eapply reachable_step; [|apply step_call].
      eapply reachable_step; [apply reachable_initial | apply step_call]. }
    assert (Hfirst : step Sample.selectAgent Sample.generateImageUrl
                          Cases.calledTwice
                          (resume Sample.selectAgent Sample.generateImageUrl
                                  Cases.firstCall ([] ++ [Cases.secondCall])
                                  Cases.calledTwice))
      by (apply step_resume; reflexivity).
    assert (Hsecond : step Sample.selectAgent Sample.generateImageUrl
                           (resume Sample.selectAgent Sample.generateImageUrl
                                   Cases.firstCall ([] ++ [Cases.secondCall])
                                   Cases.calledTwice)
                           (resume Sample.selectAgent Sample.generateImageUrl
                                   Cases.secondCall ([] ++ [])
                                   (resume Sample.selectAgent Sample.generateImageUrl
                                           Cases.firstCall ([] ++ [Cases.secondCall])
                                           Cases.calledTwice)))
      by (apply step_resume; reflexivity).
    exact (reachable_step (reachable_step Hcalled Hfirst) Hsecond).
  - split; [reflexivity|]. split; [reflexivity|]. split; [reflexivity|].
    split; [reflexivity|].
    intros env t img. unfold call.
    replace (isBusy (messages (world Cases.raced))) with true by reflexivity.
    now rewrite orb_true_r.
Qed.

(** * Beyond the turn *)

(** ** Archived chats: [startNewChat], [loadChat], [deleteChat] *)

Lemma removeAt_nth {A : Type} (i : nat) :
  forall (l : list A) (j : nat),
    nth_error (removeAt i l) j
    = if j <? i then nth_error l j else nth_error l (S j).
Proof.
  induction i as [|i IH]; intros [|x l] j; cbn [removeAt].
  - now destruct j.
  - reflexivity.
  - destruct (j <? S i); now destruct j.
  - destruct j as [|j]; [reflexivity|].
    cbn [nth_error]. rewrite IH.
    change (S j <? S i) with (j <? i). reflexivity.
Qed.

Lemma removeAt_length {A : Type} (i : nat) :
  forall l : list A,
    List.length (removeAt i l)
    = if i <? List.length l then List.length l - 1 else List.length l.
Proof.
  induction i as [|i IH]; intros [|x l]; cbn [removeAt List.length]; try reflexivity.
  - change (0 <? S (List.length l)) with true. cbv iota. lia.
  - rewrite IH. change (S i <? S (List.length l)) with (i <? List.length l).
    destruct (i <? List.length l) eqn:E; [|reflexivity].
    apply Nat.ltb_lt in E. lia.
Qed.

Lemma removeAt_beyond {A : Type} (i : nat) :
  forall l : list A, List.length l <= i -> removeAt i l = l.
Proof.
  induction i as [|i IH]; intros [|x l] H; cbn [removeAt]; try reflexivity.
  - cbn in H. lia.
  - f_equal. apply IH. cbn in H. lia.
Qed.

(** X1: New Chat puts a transcript that is not empty at the front of the
    history and empties the screen; pressing it again changes nothing more;
    and loading entry 0 right after brings the transcript back and leaves the
    history and the pending streams as they were before New Chat. *)
Theorem new_chat_round_trip (a : App) :
  messages (world a) <> [] ->
  chatHistory (startNewChat a) = messages (world a) :: chatHistory a
  /\ messages (world (startNewChat a)) = []
  /\ startNewChat (startNewChat a) = startNewChat a
  /\ exists a',
      loadChat 0 (startNewChat a) = Some a'
      /\ messages (world a') = messages (world a)
      /\ chatHistory a' = chatHistory a
      /\ inflight a' = inflight a.
Proof.
  intro Hne.
  assert (Har : archived a = messages (world a) :: chatHistory a).
  { unfold archived. destruct (messages (world a)); [contradiction|reflexivity]. }
  assert (Hs : startNewChat a =
               {| world := {| messages := []; input := EmptyString; attachment := None;
                              effects := effects (world a) |};
                  chatHistory := messages (world a) :: chatHistory a;
                  inflight := inflight a; awaiting := awaiting a |}).
  { unfold startNewChat. now rewrite Har. }
  rewrite Hs. cbn [chatHistory world messages].
  split; [reflexivity|]. split; [reflexivity|]. split.
  - reflexivity.
  - eexists. split; [reflexivity|]. repeat split.
Qed.

(** X2: [loadChat] on a transcript that is not empty.  The chat put on
    screen is still in the history, at the index it was loaded from, and the
    history is as long as before: the entry that goes is the transcript that
    was on screen when the index is 0 (it is archived and removed in the same
    step), and the entry before the loaded one otherwise. *)
Theorem load_chat_over_open_transcript (a a' : App) (index : nat) :
  messages (world a) <> [] ->
  loadChat index a = Some a' ->
  nth_error (chatHistory a) index = Some (messages (world a'))
  /\ nth_error (chatHistory a') index = Some (messages (world a'))
  /\ List.length (chatHistory a') = List.length (chatHistory a)
  /\ (index = 0 -> chatHistory a' = chatHistory a)
  /\ (forall i, index = S i ->
                chatHistory a' = messages (world a) :: removeAt i (chatHistory a)).
Proof.
  intros Hne Hload. unfold loadChat in Hload.
  destruct (nth_error (chatHistory a) index) as [chat|] eqn:E; [|discriminate].
  injection Hload as <-. cbn [world messages chatHistory].
  assert (Har : archived a = messages (world a) :: chatHistory a).
  { unfold archived. destruct (messages (world a)); [contradiction|reflexivity]. }
  rewrite Har. split; [reflexivity|]. split.
  - rewrite removeAt_nth, Nat.ltb_irrefl. exact E.
  - split.
    + rewrite removeAt_length. cbn [List.length].
      assert (Hlt : index < List.length (chatHistory a))
        by (apply nth_error_Some; congruence).
      destruct (index <? S (List.length (chatHistory a))) eqn:L; [lia|].
      apply Nat.ltb_ge in L. lia.
    + split; [intros ->; reflexivity | intros i ->; reflexivity].
Qed.

(** X3: [loadChat] on an empty transcript moves the chat from the history to
    the screen: the history loses that entry and no other, and the input box,
    the attachment and the pending streams are left alone. *)
Theorem load_chat_on_empty_transcript (a a' : App) (index : nat) :
  messages (world a) = [] ->
  loadChat index a = Some a' ->
  nth_error (chatHistory a) index = Some (messages (world a'))
  /\ chatHistory a' = removeAt index (chatHistory a)
  /\ S (List.length (chatHistory a')) = List.length (chatHistory a)
  /\ (forall j, nth_error (chatHistory a') j
                = if j <? index then nth_error (chatHistory a) j
                  else nth_error (chatHistory a) (S j))
  /\ input (world a') = input (world a)
  /\ attachment (world a') = attachment (world a)
  /\ inflight a' = inflight a.
Proof.
  intros Hempty Hload. unfold loadChat in Hload.
  destruct (nth_error (chatHistory a) index) as [chat|] eqn:E; [|discriminate].
  injection Hload as <-. cbn [world messages chatHistory input attachment inflight].
  assert (Har : archived a = chatHistory a) by (unfold archived; now rewrite Hempty).
  rewrite Har. split; [reflexivity|]. split; [reflexivity|]. split.
  - rewrite removeAt_length.
    assert (Hlt : index < List.length (chatHistory a))
      by (apply nth_error_Some; congruence).
    apply Nat.ltb_lt in Hlt as Hb. rewrite Hb. lia.
  - split; [intro j; apply removeAt_nth|]. repeat split.
Qed.

(** X4: [deleteChat] touches the history only.  An index past the end
    changes nothing; an index inside removes that entry, and the other
    entries keep their order. *)
Theorem delete_chat_removes_one_entry (a : App) (index : nat) :
  world (deleteChat index a) = world a
  /\ inflight (deleteChat index a) = inflight a
  /\ (List.length (chatHistory a) <= index -> deleteChat index a = a)
  /\ (index < List.length (chatHistory a) ->
      S (List.length (chatHistory (deleteChat index a))) = List.length (chatHistory a))
  /\ (forall j, nth_error (chatHistory (deleteChat index a)) j
                = if j <? index then nth_error (chatHistory a) j
                  else nth_error (chatHistory a) (S j)).
Proof.
  unfold deleteChat; cbn [world inflight chatHistory].
  split; [reflexivity|]. split; [reflexivity|]. split.
  - intro H. rewrite (removeAt_beyond _ _ H). now destruct a.
  - split.
    + intro H. rewrite removeAt_length.
      apply Nat.ltb_lt in H as Hb. rewrite Hb. lia.
    + intro j. apply removeAt_nth.
Qed.

(** ** The history sidebar *)

Lemma indexedFrom_In {A : Type} (l : list A) :
  forall (start : nat) (x : A) (i : nat),
    In (x, i) (indexedFrom start l)
    <-> start <= i /\ nth_error l (i - start) = Some x.
Proof.
  induction l as [|y l IH]; intros start x i; cbn [indexedFrom In].
  - split; [contradiction|]. intros [_ H]. now destruct (i - start).
  - rewrite IH. split.
    + intros [H|[Hle H]].
      * injection H as -> ->. split; [lia|]. now rewrite Nat.sub_diag.
      * split; [lia|]. replace (i - start) with (S (i - S start)) by lia. exact H.
    + intros [Hle H]. destruct (i - start) as [|k] eqn:E.
      * left. cbn in H. injection H as ->. f_equal. lia.
      * right. split; [lia|]. replace (i - S start) with k by lia. exact H.
Qed.

Lemma filteredHistory_In (term : string) (history : list (list Message))
      (chat : list Message) (index : nat) :
  In (chat, index) (filteredHistory term history)
  <-> nth_error history index = Some chat
      /\ JS.includes (JS.toLowerCase (chatTitle chat)) (JS.toLowerCase term) = true.
Proof.
  unfold filteredHistory. rewrite filter_In, indexedFrom_In, Nat.sub_0_r.
  cbn [fst]. intuition lia.
Qed.

(** X5: every row of the sidebar carries the index its chat has in the
    history, so that a click on the row loads the very chat whose title the
    row shows. *)
Theorem sidebar_row_loads_its_chat (a : App) (term : string)
        (chat : list Message) (index : nat) :
  In (chat, index) (filteredHistory term (chatHistory a)) ->
  nth_error (chatHistory a) index = Some chat
  /\ exists a', loadChat index a = Some a' /\ messages (world a') = chat.
Proof.
  intro Hin. apply filteredHistory_In in Hin as [Hnth _].
  split; [exact Hnth|]. unfold loadChat. rewrite Hnth.
  eexists. split; reflexivity.
Qed.

Lemma includes_empty (s : string) : JS.includes s EmptyString = true.
Proof. now destruct s. Qed.

Lemma indexedFrom_fst {A : Type} (l : list A) :
  forall start, map fst (indexedFrom start l) = l.
Proof. induction l as [|x l IH]; intro start; cbn; [reflexivity|]. now rewrite IH. Qed.

Lemma indexedFrom_snd {A : Type} (l : list A) :
  forall start, map snd (indexedFrom start l) = seq start (List.length l).
Proof. induction l as [|x l IH]; intro start; cbn; [reflexivity|]. now rewrite IH. Qed.

Lemma filter_all {A : Type} (f : A -> bool) (l : list A) :
  (forall x, f x = true) -> filter f l = l.
Proof. intro H. induction l as [|x l IH]; cbn; [reflexivity|]. now rewrite H, IH. Qed.

(** X6: with an empty search box the sidebar lists every archived chat, in
    the order of the history and with the indices 0, 1, 2, ... *)
Theorem empty_search_lists_every_chat (history : list (list Message)) :
  map fst (filteredHistory EmptyString history) = history
  /\ map snd (filteredHistory EmptyString history) = seq 0 (List.length history).
Proof.
  unfold filteredHistory.
  rewrite filter_all by (intro row; apply includes_empty).
  split; [apply indexedFrom_fst | apply indexedFrom_snd].
Qed.

Lemma lowerChar_idempotent (c : ascii) : JS.lowerChar (JS.lowerChar c) = JS.lowerChar c.
Proof. destruct c as [[] [] [] [] [] [] [] []]; reflexivity. Qed.

Lemma toLowerCase_idempotent (s : string) :
  JS.toLowerCase (JS.toLowerCase s) = JS.toLowerCase s.
Proof.
  induction s as [|c s IH]; cbn [JS.toLowerCase]; [reflexivity|].
  now rewrite lowerChar_idempotent, IH.
Qed.

Lemma startsWith_lower (p : string) :
  forall s, JS.startsWith s p = true ->
            JS.startsWith (JS.toLowerCase s) (JS.toLowerCase p) = true.
Proof.
  induction p as [|a p IH]; intros s H; [reflexivity|].
  destruct s as [|b s]; [discriminate|].
  cbn [JS.startsWith JS.toLowerCase] in *.
  apply andb_prop in H as [Hc H]. apply Ascii.eqb_eq in Hc. subst b.
  now rewrite Ascii.eqb_refl, IH.
Qed.

Lemma includes_lower (p s : string) :
  JS.includes s p = true ->
  JS.includes (JS.toLowerCase s) (JS.toLowerCase p) = true.
Proof.
  induction s as [|c s IH]; cbn [JS.includes JS.toLowerCase]; intro H.
  - destruct p; [reflexivity|discriminate].
  - apply orb_prop in H as [H|H].
    + change (String (JS.lowerChar c) (JS.toLowerCase s))
        with (JS.toLowerCase (String c s)).
      now rewrite (startsWith_lower _ _ H).
    + rewrite (IH H). apply orb_true_r.
Qed.

(** X7: the search of the sidebar ignores letter case, for titles and terms
    made of the characters U+0000 to U+00FF, where [toLowerCase] maps each
    character on its own (the range of this embedding; beyond it, where the
    lower case of a letter can depend on its neighbours, as for the Greek
    final sigma, nothing is stated).  A chat whose title contains the term as
    typed is listed, it is listed as well for the term in lower case, and
    the rows for a term and for its lower-case form are the same. *)
Theorem search_ignores_case (term : string) (history : list (list Message))
        (chat : list Message) (index : nat) :
  nth_error history index = Some chat ->
  JS.includes (chatTitle chat) term = true ->
  In (chat, index) (filteredHistory term history)
  /\ In (chat, index) (filteredHistory (JS.toLowerCase term) history)
  /\ filteredHistory (JS.toLowerCase term) history = filteredHistory term history.
Proof.
  intros Hnth Hin.
  assert (E : filteredHistory (JS.toLowerCase term) history = filteredHistory term history).
  { unfold filteredHistory. now rewrite toLowerCase_idempotent. }
  rewrite E. split; [|split; [|reflexivity]];
    apply filteredHistory_In; split; auto using includes_lower.
Qed.

(** ** More on [sendMessage] *)

Lemma keepCited_In (l : list (option Source)) (s : Source) :
  In s (keepCited l) <->
  In (Some s) l /\ JS.truthy_opt (uri s) = true /\ JS.truthy_opt (title s) = true.
Proof.
  induction l as [|[x|] l IH]; cbn [keepCited In].
  - tauto.
  - destruct (JS.truthy_opt (uri x) && JS.truthy_opt (title x)) eqn:E.
    + cbn [In]. rewrite IH. apply andb_prop in E as [Eu Et]. split.
      * intros [->|H]; [auto|tauto].
      * intros [[H|H] Hv]; [injection H as ->; auto | tauto].
    + rewrite IH. split; [tauto|].
      intros [[H|H] [Hu Ht]]; [|tauto].
      injection H as ->. rewrite Hu, Ht in E. discriminate.
  - rewrite IH. split; [tauto|]. intros [[H|H] Hv]; [discriminate|tauto].
Qed.

Lemma citedIn_valid (c : Chunk) (s : Source) :
  In s (citedIn c) -> JS.truthy_opt (uri s) = true /\ JS.truthy_opt (title s) = true.
Proof.
  unfold citedIn. destruct (groundingChunksOf c); [|contradiction].
  intro H. now apply keepCited_In in H.
Qed.

Lemma mergeSources_In (acc srcs : list Source) (s : Source) :
  In s (mergeSources acc srcs) -> In s acc \/ In s srcs.
Proof.
  unfold mergeSources. rewrite in_app_iff, filter_In. tauto.
Qed.

Lemma mergeSources_covers (acc srcs : list Source) (s : Source) :
  In s srcs -> In (uri s) (uris (mergeSources acc srcs)).
Proof.
  intro H. unfold mergeSources, uris. rewrite map_app, in_app_iff.
  destruct (existsb (fun exist => sameUri exist s) acc) eqn:E.
  - left. now apply known_uri.
  - right. apply in_map. apply filter_In. split; [exact H|]. now rewrite E.
Qed.

Lemma accumulated_origin (cs : list Chunk) (s : Source) :
  forall st,
    In s (accumulatedSources (fold_left nextAccum cs st)) ->
    In s (accumulatedSources st) \/ exists c, In c cs /\ In s (citedIn c).
Proof.
  induction cs as [|c cs IH]; intros st H; cbn [fold_left] in H; [now left|].
  destruct (IH _ H) as [H1|(c' & Hc' & Hs)].
  - cbn [nextAccum accumulatedSources] in H1.
    destruct (mergeSources_In _ _ _ H1) as [H2|H2]; [now left|].
    right. exists c. split; [now left | exact H2].
  - right. exists c'. split; [now right | exact Hs].
Qed.

Lemma accumulated_keeps (cs : list Chunk) (u : option string) :
  forall st,
    In u (uris (accumulatedSources st)) ->
    In u (uris (accumulatedSources (fold_left nextAccum cs st))).
Proof.
  induction cs as [|c cs IH]; intros st H; cbn [fold_left]; [exact H|].
  apply IH. cbn [nextAccum accumulatedSources]. unfold mergeSources, uris.
  rewrite map_app, in_app_iff. now left.
Qed.

Lemma accumulated_covers (cs : list Chunk) (c : Chunk) (s : Source) :
  In c cs -> In s (citedIn c) ->
  forall st, In (uri s) (uris (accumulatedSources (fold_left nextAccum cs st))).
Proof.
  induction cs as [|c' cs IH]; intros Hc Hs st; [contradiction|].
  cbn [fold_left]. destruct Hc as [->|Hc].
  - apply accumulated_keeps. cbn [nextAccum accumulatedSources].
    now apply mergeSources_covers.
  - now apply IH.
Qed.

Lemma currentParts_nonempty (rendered : list Message) (t : string)
      (img : option Attachment) :
  rejected rendered t img = false -> currentParts t img <> [].
Proof.
  unfold rejected, currentParts. intro H. apply orb_false_elim in H as [H _].
  destruct (JS.truthy (JS.trim t)); [discriminate|].
  destruct img; [discriminate|discriminate].
Qed.

Section MoreProperties.

Variable selectAgent : string -> option Agent.
Variable generateImageUrl : string -> string.

(** X8: a submission that the guard accepts empties the input box and drops
    the attachment, on every path (image command, local answer, missing key,
    request, failure); a rejected one leaves both as they are. *)
Theorem submission_clears_the_form env rendered messageText imageAttachment w :
  let w' := exec (sendMessage selectAgent generateImageUrl env rendered
                              messageText imageAttachment) w in
  input w' = (if rejected rendered messageText imageAttachment
              then input w else EmptyString)
  /\ attachment w' = (if rejected rendered messageText imageAttachment
                      then attachment w else None).
Proof.
  cbv zeta. unfold exec.
  destruct (startTurn_worlds selectAgent generateImageUrl env rendered messageText
                             imageAttachment w)
    as [[Hr H]|[(Hr & _ & H)|[(Hr & _ & answer & H)|(Hr & Hnet & _)]]]; rewrite Hr.
  - rewrite (sendMessage_finished _ _ _ _ _ _ _ _ H). split; reflexivity.
  - rewrite (sendMessage_finished _ _ _ _ _ _ _ _ H). split; reflexivity.
  - rewrite (sendMessage_finished _ _ _ _ _ _ _ _ H). split; reflexivity.
  - fold (exec (sendMessage selectAgent generateImageUrl env rendered messageText
                            imageAttachment) w).
    rewrite (sendMessage_network _ _ _ _ _ _ w Hnet), streamed_spec.
    split; reflexivity.
Qed.

(** X9: an accepted submission makes the transcript two messages longer.
    The first of the two is the user message, with the trimmed text and the
    preview of the attachment, and nothing the turn does later changes it;
    the second is a model message with the placeholder's id.  The messages
    that were there stay as they are when none of them has that id. *)
Theorem turn_appends_its_two_messages env rendered messageText imageAttachment w :
  rejected rendered messageText imageAttachment = false ->
  let w' := exec (sendMessage selectAgent generateImageUrl env rendered
                              messageText imageAttachment) w in
  List.length (messages w') = List.length (messages w) + 2
  /\ nth_error (messages w') (List.length (messages w))
     = Some {| id := Some (nowUser env ++ "-user"); role := USER;
               text := JS.trim messageText; sources := None;
               image := option_map url imageAttachment;
               agentName := None; type := None; isLoading := None |}
  /\ (exists reply,
        nth_error (messages w') (S (List.length (messages w))) = Some reply
        /\ role reply = MODEL
        /\ id reply = Some (nowModel env ++ "-model"))
  /\ (Forall (fun m => hasId (nowModel env ++ "-model") m = false) (messages w) ->
      firstn (List.length (messages w)) (messages w') = messages w).
Proof.
  intros Hrej w'.
  destruct (accepted_turn_shape selectAgent generateImageUrl env rendered messageText
                                imageAttachment w Hrej) as (F & reply & Hm & Hrole & Hid).
  fold w' in Hm. rewrite Hm.
  pose proof (patch_length (placeholderIdFor env) F (messages w)) as Hlen.
  split; [rewrite length_app, Hlen; reflexivity|].
  split.
  { rewrite nth_error_app2 by lia. rewrite Hlen, Nat.sub_diag. reflexivity. }
  split.
  { exists reply. rewrite nth_error_app2 by lia.
    rewrite Hlen. replace (S _ - _) with 1 by lia. auto. }
  intro Hfresh. rewrite (patch_fresh _ _ _ Hfresh).
  rewrite firstn_app, Nat.sub_diag, firstn_all. cbn. apply app_nil_r.
Qed.

(** X10: when the stream of a turn ends normally, the text of the
    placeholder is the text fragments of the chunks, all of them and in the
    order of arrival, joined without separator; chunks without text add
    nothing.  With at least one fragment the placeholder is not loading. *)
Theorem streamed_text_is_the_fragments_in_order env rendered messageText
        imageAttachment w :
  reachesNetwork env rendered messageText imageAttachment = true ->
  failure (response env) = None ->
  let w' := exec (sendMessage selectAgent generateImageUrl env rendered
                              messageText imageAttachment) w in
  exists earlier ph,
    messages w' = (earlier ++ [ph])%list
    /\ id ph = Some (nowModel env ++ "-model")
    /\ text ph = fold_right String.append EmptyString
                            (map (fun c => match chunkText c with
                                           | Some t => t
                                           | None => EmptyString
                                           end) (chunks (response env)))
    /\ (existsb (fun c => JS.truthy_opt (chunkText c)) (chunks (response env)) = true ->
        isLoading ph = Some false).
Proof.
  intros Hnet Hend w'. unfold w'.
  rewrite (sendMessage_network _ _ _ _ _ _ w Hnet), streamed_opened_messages.
  cbv zeta. rewrite Hend.
  destruct (placeholder_while_streaming (chunks (response env)) (placeholderIdFor env)
              (agentNameOf selectAgent messageText)) as (Hid & Htext & Hload & _).
  eexists (_ ++ [_])%list, _. split; [now rewrite <- app_assoc|].
  split; [exact Hid|]. split; [exact Htext|].
  intro Hsome. rewrite Hload.
  replace (existsb hasText (chunks (response env))) with true; [reflexivity|].
  rewrite <- Hsome. clear. induction (chunks (response env)) as [|c cs IH]; [reflexivity|].
  cbn [existsb]. rewrite IH. f_equal.
  unfold hasText, textOf, JS.truthy_opt. now destruct (chunkText c).
Qed.

(** X11: the sources of the placeholder once the stream is over, whether it
    ended or failed.  There are none when no chunk had a citation with URI
    and title.  Otherwise every source kept has a non-empty URI and a
    non-empty title and came with some chunk, every URI cited by some chunk
    is kept, and no URI is kept twice provided no single chunk cites a URI
    twice. *)
Theorem sources_of_a_turn env rendered messageText imageAttachment w :
  reachesNetwork env rendered messageText imageAttachment = true ->
  let w' := exec (sendMessage selectAgent generateImageUrl env rendered
                              messageText imageAttachment) w in
  let cs := chunks (response env) in
  exists earlier ph,
    messages w' = (earlier ++ [ph])%list
    /\ (existsb hasCitations cs = false -> sources ph = None)
    /\ (existsb hasCitations cs = true ->
        exists srcs,
          sources ph = Some srcs
          /\ Forall (fun s => JS.truthy_opt (uri s) = true
                              /\ JS.truthy_opt (title s) = true
                              /\ exists c, In c cs /\ In s (citedIn c)) srcs
          /\ (forall c s, In c cs -> In s (citedIn c) -> In (uri s) (uris srcs))
          /\ (Forall (fun c => NoDup (uris (citedIn c))) cs -> NoDup (uris srcs))).
Proof.
  intros Hnet w' cs. unfold w'.
  rewrite (sendMessage_network _ _ _ _ _ _ w Hnet), streamed_opened_messages.
  cbv zeta. fold cs.
  set (ph0 := streamUpdate initialAccum cs
                (placeholder (placeholderIdFor env) (agentNameOf selectAgent messageText))).
  assert (Hs : sources (match failure (response env) with
                        | Some error => withText (connectionError error) ph0
                        | None => ph0
                        end)
               = if existsb hasCitations cs
                 then Some (accumulatedSources (fold_left nextAccum cs initialAccum))
                 else None).
  { destruct (failure (response env)); cbn [withText sources];
      unfold ph0; now rewrite sources_streamUpdate. }
  eexists (_ ++ [_])%list, _. split; [now rewrite <- app_assoc|].
  rewrite Hs. split; [now intros ->|]. intros ->.
  eexists. split; [reflexivity|]. split; [|split].
  - apply Forall_forall. intros s Hin.
    destruct (accumulated_origin cs s initialAccum Hin) as [[]|(c & Hc & Hsc)].
    destruct (citedIn_valid c s Hsc) as [Hu Ht]. eauto.
  - intros c s Hc Hsc. now apply accumulated_covers with (c := c).
  - intro Hnd. apply accumulated_NoDup; [exact Hnd|constructor].
Qed.

(** X12: the entry of the current turn in a request is never empty.  It has
    the trimmed text first when there is one, then the attached image when
    there is one, and the request goes to the model gemini-2.5-flash. *)
Theorem request_current_entry env rendered messageText imageAttachment w req :
  In (GenerateContentStream req)
     (emitted w (exec (sendMessage selectAgent generateImageUrl env rendered
                                   messageText imageAttachment) w)) ->
  model req = "gemini-2.5-flash"
  /\ exists history current,
      contents req = (history ++ [current])%list
      /\ contentRole current = USER
      /\ parts current <> []
      /\ parts current
         = ((if JS.truthy (JS.trim messageText)
             then [PartText (JS.trim messageText)] else [])
            ++ match imageAttachment with
               | Some a => [PartInlineData (mimeType a) (data a)]
               | None => []
               end)%list.
Proof.
  intro Hin.
  destruct (request_emitted selectAgent generateImageUrl _ _ _ _ _ _ Hin) as [Hnet ->].
  split; [reflexivity|].
  exists (historyForAPI rendered),
         {| contentRole := USER; parts := currentParts messageText imageAttachment |}.
  split; [reflexivity|]. split; [reflexivity|]. split; [|reflexivity].
  cbn [parts]. eapply currentParts_nonempty, reachesNetwork_accepted. exact Hnet.
Qed.

(** X13: the position is asked for only in a turn that sends a request with
    the maps tool: when a turn asks for it, its effects are exactly the
    classifier call, one position request with a timeout of 10000 ms, and the
    request, in this order.  Rejected calls, image commands, local answers
    and turns without API key never ask for it. *)
Theorem position_asked_only_for_maps_requests env rendered messageText
        imageAttachment w timeout :
  let w' := exec (sendMessage selectAgent generateImageUrl env rendered
                              messageText imageAttachment) w in
  In (GetCurrentPosition timeout) (emitted w w') ->
  exists req,
    emitted w w' = [SelectAgent messageText; GetCurrentPosition 10000%Z;
                    GenerateContentStream req]
    /\ tools req = [GoogleSearch; GoogleMaps]
    /\ timeout = 10000%Z.
Proof.
  intros w' Hin. unfold w' in *.
  destruct (reachesNetwork env rendered messageText imageAttachment) eqn:Hnet.
  - rewrite (emitted_network _ _ _ _ _ _ w Hnet) in *.
    unfold networkEffects, requestOf in *.
    destruct (isMapQuery messageText); cbn in Hin.
    + eexists. split; [reflexivity|]. split; [reflexivity|].
      destruct Hin as [H|[H|[H|[]]]]; try discriminate. now injection H.
    + destruct Hin as [H|[H|[]]]; discriminate.
  - exfalso. destruct (emitted_offline selectAgent generateImageUrl _ _ _ _ w Hnet)
      as [_ Hgeo].
    assert (Hf : In (GetCurrentPosition timeout)
                    (filter isGeoCall
                       (emitted w (exec (sendMessage selectAgent generateImageUrl env
                                                     rendered messageText imageAttachment) w))))
      by (apply filter_In; split; [exact Hin|reflexivity]).
    rewrite Hgeo in Hf. contradiction.
Qed.

End MoreProperties.

(** X14: a stream whose placeholder is not in the transcript on screen (the
    user started a new chat or loaded another one meanwhile) changes nothing,
    whatever chunks it delivers and whether it ends or fails. *)
Theorem stale_stream_writes_nothing (placeholderId : string) (r : StreamOutcome)
        (w : World) :
  Forall (fun m => hasId placeholderId m = false) (messages w) ->
  streamed placeholderId r w = w
  /\ (forall st chunk, snd (onChunk placeholderId st chunk w) = w)
  /\ (forall error, exec (onError placeholderId error) w = w).
Proof.
  intro Hfresh. split; [|split].
  - rewrite streamed_spec, (patch_fresh _ _ _ Hfresh). apply withMessages_same.
  - intros st chunk. rewrite onChunk_spec. cbn [snd].
    rewrite (patch_fresh _ _ _ Hfresh). apply withMessages_same.
  - intro error. unfold exec, onError, setMessages. cbn [snd].
    rewrite (patch_fresh _ _ _ Hfresh). now destruct w.
Qed.

(** ** Code blocks of the markdown renderer: [escapedCode] *)

Lemma replaceAll_app (c : ascii) (r a b : string) :
  replaceAll c r (a ++ b) = (replaceAll c r a ++ replaceAll c r b)%string.
Proof.
  induction a as [|x a IH]; [reflexivity|].
  cbn [append replaceAll]. rewrite IH. now rewrite append_assoc.
Qed.

(** The three passes amount to one pass that replaces each character on its
    own. *)
Lemma escapedCode_step (c : ascii) (s : string) :
  escapedCode (String c s) = (escapedChar c ++ escapedCode s)%string.
Proof.
  unfold escapedCode, escapedChar.
  change (String c s) with (String c EmptyString ++ s)%string.
  rewrite !replaceAll_app. f_equal.
  cbn [replaceAll append].
  destruct (Ascii.eqb c "&") eqn:Ea; [reflexivity|].
  cbn [replaceAll append].
  destruct (Ascii.eqb c "<") eqn:El; [reflexivity|].
  cbn [replaceAll append].
  destruct (Ascii.eqb c ">"); reflexivity.
Qed.

Lemma includes_char (c : ascii) (s : string) :
  allChars (fun x => negb (Ascii.eqb c x)) s = true ->
  JS.includes s (String c EmptyString) = false.
Proof.
  induction s as [|x s IH]; [reflexivity|].
  cbn [allChars JS.includes JS.startsWith]. intro H.
  apply andb_prop in H as [Hx H]. apply negb_true_iff in Hx.
  now rewrite Hx, (IH H).
Qed.

Lemma allChars_app (p : ascii -> bool) (a b : string) :
  allChars p (a ++ b) = allChars p a && allChars p b.
Proof.
  induction a as [|x a IH]; [reflexivity|].
  cbn [append allChars]. now rewrite IH, andb_assoc.
Qed.

(** X15: whatever the code of a block is, its escaped form has neither [<]
    nor [>], so that nothing in it can open or close a tag inside the
    [<pre><code>] element; and a code without [&], [<] and [>] is put there
    as it is. *)
Theorem escaped_code_has_no_tag (code : string) :
  JS.includes (escapedCode code) "<" = false
  /\ JS.includes (escapedCode code) ">" = false
  /\ (JS.includes code "&" = false -> JS.includes code "<" = false ->
      JS.includes code ">" = false -> escapedCode code = code).
Proof.
  assert (H : forall c, (c = "<" \/ c = ">")%char ->
                        allChars (fun x => negb (Ascii.eqb c x)) (escapedCode code) = true).
  { intros c Hc. induction code as [|x s IH]; [reflexivity|].
    rewrite escapedCode_step, allChars_app, IH, andb_true_r.
    unfold escapedChar.
    destruct (Ascii.eqb x "&") eqn:Ea; [destruct Hc as [-> | ->]; reflexivity|].
    destruct (Ascii.eqb x "<") eqn:El; [destruct Hc as [-> | ->]; reflexivity|].
    destruct (Ascii.eqb x ">") eqn:Eg; [destruct Hc as [-> | ->]; reflexivity|].
    cbn [allChars]. rewrite andb_true_r. apply negb_true_iff.
    rewrite Ascii.eqb_sym. destruct Hc as [-> | ->]; assumption. }
  split; [apply includes_char, H; now left|].
  split; [apply includes_char, H; now right|].
  clear H. induction code as [|x s IH]; [reflexivity|].
  cbn [JS.includes JS.startsWith]. intros Ha Hl Hg.
  apply orb_false_elim in Ha as [Ha Ha'], Hl as [Hl Hl'], Hg as [Hg Hg'].
  rewrite andb_true_r in Ha, Hl, Hg.
  rewrite escapedCode_step, (IH Ha' Hl' Hg'). unfold escapedChar.
  rewrite (Ascii.eqb_sym x "&"), Ha, (Ascii.eqb_sym x "<"), Hl,
          (Ascii.eqb_sym x ">"), Hg. reflexivity.
Qed.

(** X16: escaping loses nothing: two codes with the same escaped form are
    the same code. *)
Theorem escaped_code_is_injective (a : string) :
  forall b, escapedCode a = escapedCode b -> a = b.
Proof.
  induction a as [|x a IH]; intros [|y b] H.
  - reflexivity.
  - rewrite escapedCode_step in H. unfold escapedChar in H.
    change (escapedCode EmptyString) with EmptyString in H.
    destruct (Ascii.eqb y "&"); [discriminate|].
    destruct (Ascii.eqb y "<"); [discriminate|].
    destruct (Ascii.eqb y ">"); discriminate.
  - rewrite escapedCode_step in H. unfold escapedChar in H.
    change (escapedCode EmptyString) with EmptyString in H.
    destruct (Ascii.eqb x "&"); [discriminate|].
    destruct (Ascii.eqb x "<"); [discriminate|].
    destruct (Ascii.eqb x ">"); discriminate.
  - rewrite !escapedCode_step in H. unfold escapedChar in H.
    destruct (Ascii.eqb x "&") eqn:Xa; [apply Ascii.eqb_eq in Xa|];
      [|destruct (Ascii.eqb x "<") eqn:Xl; [apply Ascii.eqb_eq in Xl|];
        [|destruct (Ascii.eqb x ">") eqn:Xg; [apply Ascii.eqb_eq in Xg|]]];
      (destruct (Ascii.eqb y "&") eqn:Ya; [apply Ascii.eqb_eq in Ya|];
       [|destruct (Ascii.eqb y "<") eqn:Yl; [apply Ascii.eqb_eq in Yl|];
         [|destruct (Ascii.eqb y ">") eqn:Yg; [apply Ascii.eqb_eq in Yg|]]]);
      subst; cbn [append] in H; try discriminate;
      injection H as H; subst;
      try (rewrite Ascii.eqb_refl in *; discriminate);
      f_equal; now apply IH.
Qed.

(** ** Code blocks of an answer: [extractCode] *)

Lemma splitAtFence_length (s : string) :
  forall b a, splitAtFence s = Some (b, a) ->
              String.length s = String.length b + 3 + String.length a.
Proof.
  induction s as [|c s IH]; intros b a H; [discriminate|].
  cbn [splitAtFence] in H.
  destruct (JS.startsWith (String c s) fence) eqn:E.
  - clear IH. destruct s as [|c2 [|c3 s']];
      [cbn [JS.startsWith fence] in E; now rewrite ?andb_false_r in E ..|].
    cbn [JS.substring] in H. injection H as <- <-. cbn [String.length]. lia.
  - destruct (splitAtFence s) as [[b' a']|] eqn:E'; [|discriminate].
    injection H as <- <-. cbn [String.length]. rewrite (IH _ _ eq_refl). lia.
Qed.

Lemma dropWhile_length (p : ascii -> bool) (s : string) :
  String.length (dropWhile p s) <= String.length s.
Proof.
  induction s as [|c s IH]; [reflexivity|].
  cbn [dropWhile]. destruct (p c); cbn [String.length]; lia.
Qed.

Lemma execCodeBlock_shorter (s group rest : string) :
  execCodeBlock s = Some (group, rest) ->
  String.length rest + 6 <= String.length s.
Proof.
  unfold execCodeBlock.
  destruct (splitAtFence s) as [[b a]|] eqn:E; [|discriminate].
  intro H. apply splitAtFence_length in E, H.
  pose proof (dropWhile_length JS.isWhiteSpace (dropWhile JS.isWordChar a)).
  pose proof (dropWhile_length JS.isWordChar a). lia.
Qed.

(** The loop of [extractCode] ends by itself: any fuel from the length of the
    text on gives the same blocks. *)
Lemma codeBlocks_fuel (f1 : nat) :
  forall f2 s,
    String.length s <= f1 -> String.length s <= f2 ->
    codeBlocks f1 s = codeBlocks f2 s.
Proof.
  induction f1 as [|f1 IH]; intros [|f2] s H1 H2; cbn [codeBlocks]; try reflexivity.
  - destruct s; [reflexivity | cbn in H1; lia].
  - destruct s; [reflexivity | cbn in H2; lia].
  - destruct (execCodeBlock s) as [[g r]|] eqn:E; [|reflexivity].
    apply execCodeBlock_shorter in E. f_equal. apply IH; lia.
Qed.

Lemma splitAtFence_absent (s : string) :
  JS.includes s fence = false -> splitAtFence s = None.
Proof.
  induction s as [|c s IH]; [reflexivity|].
  cbn [JS.includes splitAtFence]. intro H.
  apply orb_false_elim in H as [-> H]. now rewrite (IH H).
Qed.

Lemma splitAtFence_tail (c : ascii) (s : string) :
  splitAtFence (String c s) = None -> splitAtFence s = None.
Proof.
  cbn [splitAtFence]. destruct (JS.startsWith (String c s) fence); [discriminate|].
  now destruct (splitAtFence s) as [[b a]|].
Qed.

Lemma splitAtFence_dropWhile (p : ascii -> bool) (s : string) :
  splitAtFence s = None -> splitAtFence (dropWhile p s) = None.
Proof.
  induction s as [|c s IH]; [reflexivity|]. intro H.
  cbn [dropWhile]. destruct (p c); [|exact H].
  apply IH. now apply splitAtFence_tail in H.
Qed.

Lemma splitAtFence_plain (pre tail : string) :
  allChars notBacktick pre = true ->
  splitAtFence tail = None -> splitAtFence (pre ++ tail) = None.
Proof.
  intros Hpre Htail. induction pre as [|c pre IH]; [exact Htail|].
  cbn [allChars] in Hpre. apply andb_prop in Hpre as [Hc Hpre].
  cbn [append splitAtFence JS.startsWith fence].
  unfold notBacktick in Hc. apply negb_true_iff in Hc.
  rewrite (Ascii.eqb_sym "`" c), Hc. cbn [andb]. now rewrite (IH Hpre).
Qed.

Lemma splitAtFence_first (pre rest : string) :
  allChars notBacktick pre = true ->
  splitAtFence (pre ++ fence ++ rest) = Some (pre, rest).
Proof.
  intro Hpre. induction pre as [|c pre IH]; [reflexivity|].
  cbn [allChars] in Hpre. apply andb_prop in Hpre as [Hc Hpre].
  cbn [append splitAtFence JS.startsWith fence].
  unfold notBacktick in Hc. apply negb_true_iff in Hc.
  rewrite (Ascii.eqb_sym "`" c), Hc. cbn [andb].
  cbn [append fence] in IH. now rewrite (IH Hpre).
Qed.

Lemma dropWhile_prefix (p : ascii -> bool) (a : string) (c : ascii) (b : string) :
  p c = false ->
  dropWhile p (a ++ String c b) = (dropWhile p a ++ String c b)%string.
Proof.
  intro Hc. induction a as [|x a IH]; cbn [append dropWhile].
  - now rewrite Hc.
  - destruct (p x); [exact IH | reflexivity].
Qed.

Lemma dropWhile_all (p : ascii -> bool) (a : string) :
  allChars p a = true -> dropWhile p a = EmptyString.
Proof.
  induction a as [|x a IH]; [reflexivity|]. cbn [allChars dropWhile].
  intro H. apply andb_prop in H as [-> H]. auto.
Qed.

Lemma dropWhile_space (s : string) : dropWhile JS.isWhiteSpace s = JS.trimStart s.
Proof.
  induction s as [|c s IH]; [reflexivity|].
  cbn [dropWhile JS.trimStart]. now rewrite IH.
Qed.

Lemma trimStart_idempotent (s : string) : JS.trimStart (JS.trimStart s) = JS.trimStart s.
Proof.
  induction s as [|c s IH]; [reflexivity|].
  cbn [JS.trimStart]. destruct (JS.isWhiteSpace c) eqn:E; [exact IH|].
  cbn [JS.trimStart]. now rewrite E.
Qed.

Lemma allChars_trimStart (p : ascii -> bool) (s : string) :
  allChars p s = true -> allChars p (JS.trimStart s) = true.
Proof.
  induction s as [|c s IH]; [reflexivity|]. intro H.
  cbn [JS.trimStart]. destruct (JS.isWhiteSpace c); [|exact H].
  cbn [allChars] in H. apply andb_prop in H as [_ H]. auto.
Qed.

(** One match: text without backtick, a fence, word characters, a body
    without backtick that does not go on with a word character, a fence. *)
Lemma execCodeBlock_block (pre lang body rest : string) :
  allChars notBacktick pre = true ->
  allChars JS.isWordChar lang = true ->
  JS.isWord (JS.head body) = false ->
  allChars notBacktick body = true ->
  execCodeBlock (pre ++ fence ++ lang ++ body ++ fence ++ rest)
  = Some (JS.trimStart body, rest).
Proof.
  intros Hpre Hlang Hhead Hbody. unfold execCodeBlock.
  rewrite (splitAtFence_first _ _ Hpre). cbv zeta.
  assert (E1 : dropWhile JS.isWordChar (lang ++ body ++ fence ++ rest)
               = (body ++ fence ++ rest)%string).
  { destruct body as [|c body].
    - cbn [append fence]. rewrite dropWhile_prefix by reflexivity.
      now rewrite (dropWhile_all _ _ Hlang).
    - cbn [append]. rewrite dropWhile_prefix by exact Hhead.
      now rewrite (dropWhile_all _ _ Hlang). }
  rewrite E1.
  assert (E2 : dropWhile JS.isWhiteSpace (body ++ fence ++ rest)
               = (JS.trimStart body ++ fence ++ rest)%string).
  { cbn [fence append]. rewrite dropWhile_prefix by reflexivity.
    now rewrite dropWhile_space. }
  rewrite E2. apply splitAtFence_first. now apply allChars_trimStart.
Qed.

Lemma trim_trimStart (s : string) : JS.trim (JS.trimStart s) = JS.trim s.
Proof. unfold JS.trim. now rewrite trimStart_idempotent. Qed.

(** X17: a fenced block is extracted.  In a text made of a part without
    backtick, a fence, a run of word characters (the language, possibly
    empty), a body without backtick that does not start with a word
    character, a closing fence and any further text, the first block found
    is the trimmed body, and the blocks of the further text follow it after
    an empty line.  The word characters right after the opening fence are
    never part of the block, also when they are the first word of the code. *)
Theorem fenced_block_is_extracted (pre lang body more : string) :
  allChars notBacktick pre = true ->
  allChars JS.isWordChar lang = true ->
  JS.isWord (JS.head body) = false ->
  allChars notBacktick body = true ->
  extractCode (pre ++ "```" ++ lang ++ body ++ "```" ++ more)
  = Some (match extractCode more with
          | Some others => JS.trim body ++ nl ++ nl ++ others
          | None => JS.trim body
          end)%string.
Proof.
  intros Hpre Hlang Hhead Hbody.
  pose proof (execCodeBlock_block pre lang body more Hpre Hlang Hhead Hbody) as Hexec.
  change "```" with fence.
  set (t := (pre ++ fence ++ lang ++ body ++ fence ++ more)%string) in *.
  pose proof (execCodeBlock_shorter _ _ _ Hexec) as Hlen.
  unfold extractCode.
  rewrite (codeBlocks_fuel (String.length t) (S (String.length t)) t) by lia.
  cbn [codeBlocks]. rewrite Hexec, trim_trimStart.
  rewrite (codeBlocks_fuel (String.length t) (String.length more) more) by lia.
  destruct (codeBlocks (String.length more) more) as [|b bs]; reflexivity.
Qed.

(** X18: without a pair of fences there is no code.  A text with no fence,
    and a text with an opening fence that is never closed, both give
    [null]. *)
Theorem unfenced_text_has_no_code (pre tail : string) :
  allChars notBacktick pre = true ->
  JS.includes tail "```" = false ->
  extractCode (pre ++ tail) = None
  /\ extractCode (pre ++ "```" ++ tail) = None.
Proof.
  intros Hpre Htail. change "```" with fence in *.
  pose proof (splitAtFence_absent _ Htail) as Hnone.
  assert (Hno : forall s, execCodeBlock s = None ->
                          extractCode s = None).
  { intros s H. unfold extractCode.
    destruct (String.length s); cbn [codeBlocks]; [reflexivity|]. now rewrite H. }
  split; apply Hno; unfold execCodeBlock.
  - now rewrite (splitAtFence_plain _ _ Hpre Hnone).
  - rewrite (splitAtFence_first _ _ Hpre). cbv zeta.
    now do 2 apply splitAtFence_dropWhile.
Qed.

(** ** The shape of every transcript the component can build *)

Lemma alternates_app (b : list Role) :
  forall a, alternates a = true -> alternates (a ++ b) = alternates b.
Proof.
  fix IH 1. intros [|[|] [|[|] a]] H; try discriminate.
  - reflexivity.
  - cbn [app alternates]. apply IH. exact H.
Qed.

Lemma alternates_even (l : list Role) :
  alternates l = true -> Nat.even (List.length l) = true.
Proof.
  revert l. fix IH 1. intros [|[|] [|[|] l]] H; try discriminate.
  - reflexivity.
  - cbn [List.length Nat.even]. apply IH. exact H.
Qed.

Lemma patch_roles (i : string) (f : Message -> Message) (l : list Message) :
  (forall m, role (f m) = role m) -> map role (patch i f l) = map role l.
Proof.
  intro H. unfold patch. rewrite map_map. apply map_ext.
  intro m. destruct (hasId i m); [apply H | reflexivity].
Qed.

Lemma user_message_not_hit (i : string) (m : Message) :
  isModelId i -> wellFormed m -> role m = USER -> hasId i m = false.
Proof.
  intros [t ->] Hwf Hrole. unfold wellFormed in Hwf. rewrite Hrole in Hwf.
  destruct Hwf as [[u Hid] _]. unfold hasId. rewrite Hid.
  apply user_model_ids_differ.
Qed.

Lemma patch_wellFormed (i : string) (f : Message -> Message) (l : list Message) :
  isModelId i ->
  (forall m, role m = MODEL -> wellFormed m -> wellFormed (f m)) ->
  Forall wellFormed l -> Forall wellFormed (patch i f l).
Proof.
  intros Hi Hf Hl. unfold patch. apply Forall_map.
  apply Forall_impl with (2 := Hl). intros m Hm.
  destruct (hasId i m) eqn:E; [|exact Hm].
  destruct (role m) eqn:R; [|now apply Hf].
  now rewrite (user_message_not_hit i m Hi Hm R) in E.
Qed.

Lemma withText_wellFormed (t : string) (m : Message) :
  role m = MODEL -> wellFormed m -> wellFormed (withText t m).
Proof.
  unfold wellFormed. cbn [withText role id agentName image isLoading text].
  intros -> (Hid & Ha & Hi & _). repeat split; auto. discriminate.
Qed.

Lemma withSources_wellFormed (acc : list Source) (m : Message) :
  role m = MODEL -> wellFormed m -> wellFormed (withSources acc m).
Proof.
  unfold wellFormed. cbn [withSources role id agentName image isLoading text].
  intros -> H. exact H.
Qed.

Lemma chunkUpdate_wellFormed (st : Accum) (c : Chunk) (m : Message) :
  role m = MODEL -> wellFormed m -> wellFormed (chunkUpdate st c m).
Proof.
  intros Hr Hm. unfold chunkUpdate.
  destruct (hasText c), (hasCitations c);
    auto using withText_wellFormed, withSources_wellFormed.
Qed.

Lemma chunkUpdate_role (st : Accum) (c : Chunk) (m : Message) :
  role (chunkUpdate st c m) = role m.
Proof. unfold chunkUpdate. destruct (hasText c), (hasCitations c); reflexivity. Qed.

Lemma patch_good (i : string) (f : Message -> Message) (l : list Message) :
  isModelId i ->
  (forall m, role (f m) = role m) ->
  (forall m, role m = MODEL -> wellFormed m -> wellFormed (f m)) ->
  goodTranscript l -> goodTranscript (patch i f l).
Proof.
  intros Hi Hr Hf [Ha Hw]. split.
  - now rewrite patch_roles.
  - now apply patch_wellFormed.
Qed.

Lemma good_app (l : list Message) (u r : Message) :
  goodTranscript l ->
  role u = USER -> role r = MODEL -> wellFormed u -> wellFormed r ->
  goodTranscript (l ++ [u; r]).
Proof.
  intros [Ha Hw] Hu Hr Hwu Hwr. split.
  - rewrite map_app, (alternates_app _ _ Ha). cbn. now rewrite Hu, Hr.
  - apply Forall_app. split; [exact Hw|]. repeat constructor; assumption.
Qed.

Lemma userMessage_wellFormed (env : Env) (rendered : list Message) (t : string)
      (img : option Attachment) :
  rejected rendered t img = false ->
  wellFormed (userMessageOf (userMsgIdOf env) t img).
Proof.
  intro Hrej. unfold wellFormed, userMessageOf, userMsgIdOf; cbn.
  split; [eexists; reflexivity|]. split; [|repeat split].
  unfold rejected in Hrej. apply orb_false_elim in Hrej as [H _].
  destruct (JS.truthy (JS.trim t)); [now left|].
  destruct img; [right; discriminate | discriminate].
Qed.

Lemma placeholder_wellFormed (env : Env) (agent : string) :
  wellFormed (placeholder (placeholderIdFor env) agent).
Proof.
  unfold wellFormed, placeholder, placeholderIdFor; cbn.
  split; [eexists; split; [reflexivity | eexists; reflexivity]|].
  repeat split; discriminate.
Qed.

Lemma imageMessage_wellFormed (env : Env) (u : string) :
  wellFormed (imageMessage (placeholderIdFor env) u).
Proof.
  unfold wellFormed, imageMessage, placeholderIdFor; cbn.
  split; [eexists; split; [reflexivity | eexists; reflexivity]|].
  repeat split; discriminate.
Qed.

Section Shape.

Variable selectAgent : string -> option Agent.
Variable generateImageUrl : string -> string.

Lemma startTurn_good env rendered t img w :
  goodTranscript (messages w) ->
  goodTranscript
    (messages (snd (startTurn selectAgent generateImageUrl env rendered t img w))).
Proof.
  intro Hw.
  assert (Hpid : isModelId (placeholderIdFor env)) by (eexists; reflexivity).
  destruct (startTurn_worlds selectAgent generateImageUrl env rendered t img w)
    as [[_ H]|[(Hrej & _ & H)|[(Hrej & _ & answer & H)|(Hrej & _ & H)]]];
    rewrite H; cbn [snd]; [exact Hw| | |].
  - cbn [messages]. apply good_app; auto; try reflexivity.
    + now apply userMessage_wellFormed with (rendered := rendered).
    + apply imageMessage_wellFormed.
  - unfold answered; cbn [messages]. apply patch_good; auto.
    + intros m. apply withText_wellFormed.
    + unfold appended; cbn [messages]. apply good_app; auto; try reflexivity.
      * now apply userMessage_wellFormed with (rendered := rendered).
      * apply placeholder_wellFormed.
  - unfold opened, appended; cbn [messages]. apply good_app; auto; try reflexivity.
    + now apply userMessage_wellFormed with (rendered := rendered).
    + apply placeholder_wellFormed.
Qed.

Lemma startTurn_started env rendered t img w pid w' :
  startTurn selectAgent generateImageUrl env rendered t img w = (Some pid, w') ->
  pid = placeholderIdFor env.
Proof.
  intro H.
  destruct (startTurn_worlds selectAgent generateImageUrl env rendered t img w)
    as [[_ E]|[(_ & _ & E)|[(_ & _ & answer & E)|(_ & _ & E)]]];
    rewrite E in H; try discriminate. now injection H as <- _.
Qed.

Lemma archived_good (a : App) :
  wellFormedApp a ->
  Forall (fun chat => chat <> [] /\ goodTranscript chat) (archived a).
Proof.
  intros (Hm & Hh & _). unfold archived.
  destruct (messages (world a)) eqn:E; [exact Hh|].
  constructor; [|exact Hh]. split; [discriminate | exact Hm].
Qed.

Lemma emitted_same (w w' : World) : effects w' = effects w -> emitted w w' = [].
Proof. unfold emitted. intros ->. apply skipn_all. Qed.

Lemma proceed_world env rendered t img (a : App) :
  world (proceed selectAgent generateImageUrl env rendered t img a)
  = snd (startTurn selectAgent generateImageUrl env rendered t img (world a)).
Proof.
  unfold proceed.
  now destruct (startTurn selectAgent generateImageUrl env rendered t img (world a)).
Qed.

(** The loop over the stream calls nothing outside: what a call lets out it
    lets out before the stream is read. *)
Lemma startTurn_effects env rendered t img w :
  emitted w (snd (startTurn selectAgent generateImageUrl env rendered t img w))
  = emitted w (exec (sendMessage selectAgent generateImageUrl env rendered t img) w).
Proof.
  unfold emitted. f_equal.
  destruct (startTurn selectAgent generateImageUrl env rendered t img w)
    as [[pid|] w1] eqn:E; cbn [snd].
  - rewrite (sendMessage_streamed selectAgent generateImageUrl _ _ _ _ _ _ _ E).
    now rewrite streamed_effects.
  - unfold exec.
    now rewrite (sendMessage_finished selectAgent generateImageUrl _ _ _ _ _ _ E).
Qed.

Lemma proceed_wellFormed env rendered t img (a : App) :
  wellFormedApp a ->
  wellFormedApp (proceed selectAgent generateImageUrl env rendered t img a).
Proof.
  intros (Hm & Hh & Hp & Hq). unfold proceed.
  pose proof (startTurn_good env rendered t img (world a) Hm) as Hg.
  destruct (startTurn selectAgent generateImageUrl env rendered t img (world a))
    as [started w1] eqn:E. cbn [snd] in Hg.
  split; [exact Hg|]. split; [exact Hh|]. split; [|exact Hq]. cbn [inflight].
  destruct started as [pid|]; [|exact Hp].
  apply Forall_app. split; [exact Hp|]. constructor; [|constructor].
  cbn [placeholderIdOf]. rewrite (startTurn_started _ _ _ _ _ _ _ E).
  eexists; reflexivity.
Qed.

Lemma step_wellFormed (a a' : App) :
  step selectAgent generateImageUrl a a' -> wellFormedApp a -> wellFormedApp a'.
Proof.
  intros Hstep Ha. pose proof Ha as (Hm & Hh & Hp & Hq).
  destruct Hstep as [env t img a | a pre c post Hin | a pre p post c Hin
                     | a pre p post Hin | a pre p post e Hin | a
                     | a index a' Hload | a index | a].
  - unfold call. fold (rejected (messages (world a)) t img).
    destruct (rejected (messages (world a)) t img) eqn:Hrej; [exact Ha|].
    destruct (JS.startsWith (JS.toLowerCase (JS.trim t)) "/image "
              && JS.truthy (JS.substring 7 (JS.trim t))).
    + now apply proceed_wellFormed.
    + split; [exact Hm|]. split; [exact Hh|]. split; [exact Hp|].
      cbn [awaiting]. apply Forall_app. split; [exact Hq|].
      constructor; [|constructor]. cbn [callRendered]. split; [exact Hm|].
      unfold rejected in Hrej. now apply orb_false_elim in Hrej as [_ Hbusy].
  - pose proof (proceed_wellFormed (callEnv c) (callRendered c) (callText c)
                  (callImage c) a Ha) as (Hm' & Hh' & Hp' & _).
    unfold resume. split; [exact Hm'|]. split; [exact Hh'|]. split; [exact Hp'|].
    cbn [awaiting]. rewrite Hin in Hq. apply Forall_app in Hq as [Hpre Hpost].
    inversion Hpost; subst. apply Forall_app. now split.
  - rewrite Hin in Hp. apply Forall_app in Hp as [Hpre Hpost].
    inversion Hpost as [|? ? Hpid Hpost']; subst.
    rewrite onChunk_spec. split; [|split; [exact Hh|split; [|exact Hq]]].
    + cbn [world withMessages messages]. apply patch_good; auto.
      * intro m. apply chunkUpdate_role.
      * intro m. apply chunkUpdate_wellFormed.
    + cbn [inflight]. apply Forall_app. split; [exact Hpre|].
      constructor; [exact Hpid | exact Hpost'].
  - rewrite Hin in Hp. apply Forall_app in Hp as [Hpre Hpost].
    inversion Hpost; subst.
    split; [exact Hm|]. split; [exact Hh|]. split; [|exact Hq]. cbn [inflight].
    apply Forall_app. now split.
  - rewrite Hin in Hp. apply Forall_app in Hp as [Hpre Hpost].
    inversion Hpost as [|? ? Hpid Hpost']; subst.
    split; [|split; [exact Hh|split; [|exact Hq]]].
    + unfold exec, onError, setMessages; cbn [world snd messages].
      apply patch_good; auto. intro m. apply withText_wellFormed.
    + cbn [inflight]. apply Forall_app. now split.
  - split; [split; [reflexivity|constructor]|].
    split; [now apply archived_good | split; [exact Hp | exact Hq]].
  - unfold loadChat in Hload.
    destruct (nth_error (chatHistory a) index) as [chat|] eqn:E; [|discriminate].
    injection Hload as <-. split; [|split; [|split; [exact Hp | exact Hq]]].
    + cbn [world messages]. apply nth_error_In in E.
      rewrite Forall_forall in Hh. now apply Hh.
    + cbn [chatHistory]. apply Forall_removeAt. now apply archived_good.
  - split; [exact Hm|]. split; [|split; [exact Hp | exact Hq]].
    cbn [chatHistory deleteChat]. now apply Forall_removeAt.
  - split; [split; [reflexivity|constructor]|].
    split; [exact Hh | split; constructor].
Qed.

Lemma reachable_wellFormed (a : App) :
  reachable selectAgent generateImageUrl a -> wellFormedApp a.
Proof.
  induction 1 as [|a a' _ IH Hstep].
  - split; [split; [reflexivity|constructor]|]. repeat split; constructor.
  - exact (step_wellFormed _ _ Hstep IH).
Qed.

(** X19: in every state the component can reach, a message that shows the
    loading dots is a model message without any text: as soon as a stream
    has written text into its placeholder, the placeholder is not loading
    any more, so received text is never hidden behind the dots. *)
Theorem loading_message_has_no_text (a : App) (m : Message) :
  reachable selectAgent generateImageUrl a ->
  In m (messages (world a)) ->
  JS.truthy_flag (isLoading m) = true ->
  role m = MODEL /\ text m = EmptyString.
Proof.
  intros Hreach Hin Hload.
  destruct (reachable_wellFormed _ Hreach) as ((_ & Hw) & _).
  rewrite Forall_forall in Hw. specialize (Hw m Hin).
  unfold wellFormed in Hw. destruct (role m).
  - destruct Hw as (_ & _ & Hl & _). rewrite Hl in Hload. discriminate.
  - destruct Hw as (_ & _ & _ & Ht). auto.
Qed.

(** X20: no stream ever writes into a user message, however the chunks of
    the pending streams and the other events interleave: in every reachable
    state a user message has no loading flag, no sources, no persona and no
    kind, and it has a text or an image. *)
Theorem user_messages_are_never_rewritten (a : App) (m : Message) :
  reachable selectAgent generateImageUrl a ->
  In m (messages (world a)) ->
  role m = USER ->
  isLoading m = None /\ sources m = None /\ agentName m = None /\ type m = None
  /\ (JS.truthy (text m) = true \/ image m <> None).
Proof.
  intros Hreach Hin Hrole.
  destruct (reachable_wellFormed _ Hreach) as ((_ & Hw) & _).
  rewrite Forall_forall in Hw. specialize (Hw m Hin).
  unfold wellFormed in Hw. rewrite Hrole in Hw. tauto.
Qed.

(** X21: every transcript the component can show alternates user message,
    model message, starting with a user message; its length is even. *)
Theorem transcript_alternates (a : App) :
  reachable selectAgent generateImageUrl a ->
  alternates (map role (messages (world a))) = true
  /\ Nat.even (List.length (messages (world a))) = true.
Proof.
  intro Hreach.
  destruct (reachable_wellFormed _ Hreach) as ((Ha & _) & _).
  split; [exact Ha|]. rewrite <- (length_map role). now apply alternates_even.
Qed.

(** X22: every request the running component sends, whatever the order of
    the events before it, is sent by a call of [sendMessage] that waited for
    the classifier, and is the request of that call on the transcript it was
    rendered with: its contents are the messages of that transcript, whose
    roles alternate user, model, ..., followed by the user entry of the
    turn. *)
Theorem request_roles_alternate (a a' : App) (req : Request) :
  reachable selectAgent generateImageUrl a ->
  step selectAgent generateImageUrl a a' ->
  In (GenerateContentStream req) (emitted (world a) (world a')) ->
  exists c history,
    In c (awaiting a)
    /\ req = requestOf selectAgent (callEnv c) (callRendered c) (callText c)
                       (callImage c)
    /\ history = map role (callRendered c)
    /\ map contentRole (contents req) = (history ++ [USER])%list
    /\ alternates history = true.
Proof.
  intros Hreach Hstep Hin.
  destruct (reachable_wellFormed _ Hreach) as (_ & _ & _ & Hq).
  destruct Hstep as [env t img a | a pre c post Hc | a pre p post ch Hp
                     | a pre p post Hp | a pre p post e Hp | a
                     | a index a' Hload | a index | a].
  - exfalso. revert Hin. unfold call.
    fold (rejected (messages (world a)) t img). fold (isImageCommand t).
    destruct (rejected (messages (world a)) t img) eqn:Hrej;
      [now rewrite emitted_nothing|].
    destruct (isImageCommand t) eqn:Himg;
      [|cbn [world]; now rewrite emitted_nothing].
    unfold send. rewrite proceed_world.
    rewrite (startTurn_image selectAgent generateImageUrl env _ _ _ (world a) Hrej Himg).
    cbn [snd]. erewrite emitted_app by (cbn [effects]; reflexivity).
    intros [H|[]]. discriminate.
  - unfold resume in Hin. cbn [world] in Hin.
    rewrite proceed_world, startTurn_effects in Hin.
    destruct (request_emitted selectAgent generateImageUrl _ _ _ _ _ _ Hin)
      as [Hnet ->].
    assert (Hc' : In c (awaiting a)) by (rewrite Hc; apply in_elt).
    rewrite Forall_forall in Hq. destruct (Hq c Hc') as ((Halt & _) & Hidle).
    exists c, (map role (callRendered c)).
    split; [exact Hc'|]. split; [reflexivity|]. split; [reflexivity|].
    split; [|exact Halt].
    cbn [contents requestOf]. rewrite map_app. cbn [map contentRole]. f_equal.
    unfold historyForAPI.
    rewrite filter_idle
      by (eapply rejected_false_idle, reachesNetwork_accepted; exact Hnet).
    now rewrite map_map.
  - exfalso. revert Hin. rewrite onChunk_spec. cbn [world].
    now rewrite emitted_same by reflexivity.
  - exfalso. revert Hin. cbn [world]. now rewrite emitted_nothing.
  - exfalso. revert Hin. cbn [world].
    now rewrite emitted_same by reflexivity.
  - exfalso. revert Hin. unfold startNewChat. cbn [world].
    now rewrite emitted_same by reflexivity.
  - exfalso. revert Hin. unfold loadChat in Hload.
    destruct (nth_error (chatHistory a) index); [|discriminate].
    injection Hload as <-. cbn [world].
    now rewrite emitted_same by reflexivity.
  - exfalso. revert Hin. unfold deleteChat. cbn [world].
    now rewrite emitted_nothing.
  - exfalso. revert Hin. cbn [world].
    now rewrite emitted_same by reflexivity.
Qed.

(** X23: an archived chat is never empty and begins with a user message, so
    the title the sidebar shows for it is made from its first message: the
    text of that message when it has one. *)
Theorem archived_chat_title (a : App) (chat : list Message) :
  reachable selectAgent generateImageUrl a ->
  In chat (chatHistory a) ->
  exists first rest,
    chat = first :: rest
    /\ role first = USER
    /\ (JS.truthy (text first) = true -> chatTitle chat = text first)
    /\ (text first = EmptyString ->
        image first <> None
        /\ (chatTitle chat = "Image uploaded" \/ chatTitle chat = "New Conversation")).
Proof.
  intros Hreach Hin.
  destruct (reachable_wellFormed _ Hreach) as (_ & Hh & _).
  rewrite Forall_forall in Hh. destruct (Hh chat Hin) as (Hne & Halt & Hwf).
  destruct chat as [|first rest]; [contradiction|].
  exists first, rest. split; [reflexivity|].
  assert (Hrole : role first = USER).
  { cbn [map alternates] in Halt. now destruct (role first). }
  split; [exact Hrole|].
  inversion Hwf as [|? ? Hfirst _]; subst.
  unfold wellFormed in Hfirst. rewrite Hrole in Hfirst.
  destruct Hfirst as (_ & Hcontent & _).
  unfold chatTitle. cbn [find]. unfold isUser. rewrite Hrole.
  split.
  - now intros ->.
  - intro Ht. rewrite Ht in *. cbn [JS.truthy].
    destruct Hcontent as [Hc|Hc]; [discriminate|].
    split; [exact Hc|]. destruct (JS.truthy_opt (image first)); auto.
Qed.

Lemma isBusy_after_text (pid : string) (st : Accum) (chunk : Chunk)
      (l : list Message) :
  hasText chunk = true ->
  isBusy (patch pid (chunkUpdate st chunk) l)
  = existsb (fun m' => negb (hasId pid m') && JS.truthy_flag (isLoading m')) l.
Proof.
  intro HT. unfold isBusy, patch.
  induction l as [|x l IH]; [reflexivity|].
  cbn [map existsb]. rewrite IH. f_equal.
  destruct (hasId pid x); [|reflexivity].
  unfold chunkUpdate. rewrite HT. now destruct (hasCitations chunk).
Qed.

(** X24: the first text fragment of a stream ends the loading state of its
    placeholder, while the stream goes on.  After a chunk with text no
    message with the id of the stream is loading; the form is free again
    exactly when no message with another id was loading (two placeholders
    can be, after two submissions that both passed the guard); and then the
    next submission with a text is accepted. *)
Theorem first_fragment_unblocks_the_form (w : World) (pid : string) (st : Accum)
        (chunk : Chunk) (m : Message) :
  In m (messages w) ->
  hasId pid m = true ->
  JS.truthy_flag (isLoading m) = true ->
  JS.truthy_opt (chunkText chunk) = true ->
  let w' := snd (onChunk pid st chunk w) in
  isBusy (messages w) = true
  /\ isBusy (messages w')
     = existsb (fun m' => negb (hasId pid m') && JS.truthy_flag (isLoading m'))
               (messages w)
  /\ (isBusy (messages w') = false
      <-> forall m', In m' (messages w) -> JS.truthy_flag (isLoading m') = true ->
                     hasId pid m' = true)
  /\ (isBusy (messages w') = false ->
      forall env messageText,
        JS.truthy (JS.trim messageText) = true ->
        List.length (messages (submit selectAgent generateImageUrl env messageText
                                      None w'))
        = List.length (messages w') + 2).
Proof.
  intros Hin Hid Hload Htext w'.
  assert (Hbusy : isBusy (messages w) = true).
  { unfold isBusy. apply existsb_exists. exists m. auto. }
  assert (HT : hasText chunk = true).
  { unfold hasText, textOf. unfold JS.truthy_opt in Htext.
    now destruct (chunkText chunk). }
  assert (Hafter : isBusy (messages w')
                   = existsb (fun m' => negb (hasId pid m')
                                        && JS.truthy_flag (isLoading m'))
                             (messages w)).
  { unfold w'. rewrite onChunk_spec. cbn [snd withMessages messages].
    now apply isBusy_after_text. }
  split; [exact Hbusy|]. split; [exact Hafter|]. split.
  - rewrite Hafter. split.
    + intros Hnone m' Hm' Hl'.
      destruct (hasId pid m') eqn:E; [reflexivity|].
      assert (Hex : existsb (fun m0 => negb (hasId pid m0)
                                       && JS.truthy_flag (isLoading m0))
                            (messages w) = true)
        by (apply existsb_exists; exists m'; rewrite E, Hl'; auto).
      congruence.
    + intro Hall.
      destruct (existsb _ (messages w)) eqn:E; [|reflexivity].
      apply existsb_exists in E as (m' & Hm' & Hc).
      apply andb_prop in Hc as [Hn Hl'].
      rewrite (Hall m' Hm' Hl') in Hn. discriminate.
  - intros Hquiet env t Ht.
    assert (Hacc : rejected (messages w') t None = false)
      by (unfold rejected; now rewrite Hquiet, Ht).
    destruct (accepted_turn_shape selectAgent generateImageUrl env (messages w') t
                None w' Hacc) as (F & reply & E & _).
    unfold submit. rewrite E, length_app, patch_length. reflexivity.
Qed.

End Shape.

(** ** The further theorems at concrete inputs *)

Lemma new_chat_round_trip_witness :
  messages (world (Cases.app Cases.chatA [Cases.chatB])) <> []
  /\ chatHistory (startNewChat (Cases.app Cases.chatA [Cases.chatB]))
     = [Cases.chatA; Cases.chatB]
  /\ exists a', loadChat 0 (startNewChat (Cases.app Cases.chatA [Cases.chatB])) = Some a'
                /\ messages (world a') = Cases.chatA
                /\ chatHistory a' = [Cases.chatB].
Proof.
  assert (Hne : messages (world (Cases.app Cases.chatA [Cases.chatB])) <> [])
    by discriminate.
  destruct (new_chat_round_trip (Cases.app Cases.chatA [Cases.chatB]) Hne)
    as (Hh & _ & _ & a' & Hl & Hm & Hc & _).
  split; [exact Hne|]. split; [exact Hh|]. exists a'. auto.
Defined.

Lemma load_chat_over_open_transcript_witness :
  let a := Cases.app Cases.chatA [Cases.chatB; Cases.chatC] in
  messages (world a) <> []
  /\ exists a', loadChat 1 a = Some a'
                /\ messages (world a') = Cases.chatC
                /\ chatHistory a' = [Cases.chatA; Cases.chatC].
Proof.
  cbv zeta.
  assert (Hne : messages (world (Cases.app Cases.chatA [Cases.chatB; Cases.chatC])) <> [])
    by discriminate.
  split; [exact Hne|]. eexists. split; [reflexivity|]. split; [reflexivity|].
  exact (proj2 (proj2 (proj2 (proj2
           (load_chat_over_open_transcript
              (Cases.app Cases.chatA [Cases.chatB; Cases.chatC]) _ 1 Hne eq_refl))))
         0 eq_refl).
Defined.

Lemma load_chat_on_empty_transcript_witness :
  let a := Cases.app [] [Cases.chatA; Cases.chatB] in
  messages (world a) = []
  /\ exists a', loadChat 1 a = Some a'
                /\ messages (world a') = Cases.chatB
                /\ chatHistory a' = [Cases.chatA].
Proof.
  cbv zeta. split; [reflexivity|]. eexists. split; [reflexivity|].
  split; [reflexivity|].
  exact (proj1 (proj2 (load_chat_on_empty_transcript
                         (Cases.app [] [Cases.chatA; Cases.chatB]) _ 1 eq_refl eq_refl))).
Defined.

Lemma sidebar_row_loads_its_chat_witness :
  let a := Cases.app [] [Cases.chatA; Cases.chatB; Cases.chatC] in
  In (Cases.chatC, 2) (filteredHistory "CALC" (chatHistory a))
  /\ exists a', loadChat 2 a = Some a' /\ messages (world a') = Cases.chatC.
Proof.
  cbv zeta.
  assert (Hin : In (Cases.chatC, 2)
                   (filteredHistory "CALC"
                      (chatHistory (Cases.app [] [Cases.chatA; Cases.chatB; Cases.chatC]))))
    by (left; reflexivity).
  split; [exact Hin|].
  exact (proj2 (sidebar_row_loads_its_chat _ _ _ _ Hin)).
Defined.

Lemma search_ignores_case_witness :
  nth_error [Cases.chatA; Cases.chatB] 0 = Some Cases.chatA
  /\ JS.includes (chatTitle Cases.chatA) "Rome" = true
  /\ In (Cases.chatA, 0) (filteredHistory "Rome" [Cases.chatA; Cases.chatB]).
Proof.
  split; [reflexivity|]. split; [reflexivity|].
  exact (proj1 (search_ignores_case "Rome" [Cases.chatA; Cases.chatB] Cases.chatA 0
                                    eq_refl eq_refl)).
Defined.

Lemma turn_appends_its_two_messages_witness :
  rejected (messages Sample.withPicture) " and this? " (Some Sample.photo) = false
  /\ List.length
       (messages (exec (sendMessage Sample.selectAgent Sample.generateImageUrl Cases.env
                                    (messages Sample.withPicture) " and this? "
                                    (Some Sample.photo)) Sample.withPicture))
     = 4.
Proof.
  split; [reflexivity|].
  exact (proj1 (turn_appends_its_two_messages Sample.selectAgent Sample.generateImageUrl
                  Cases.env (messages Sample.withPicture) " and this? "
                  (Some Sample.photo) Sample.withPicture eq_refl)).
Defined.

Lemma streamed_text_is_the_fragments_in_order_witness :
  let env := Sample.env (Some "key") GeoRejected Cases.threeChunks in
  let w' := exec (sendMessage Sample.selectAgent Sample.generateImageUrl env
                              (messages Sample.idle) "capital of France?" None)
                 Sample.idle in
  reachesNetwork env (messages Sample.idle) "capital of France?" None = true
  /\ failure (response env) = None
  /\ exists earlier ph, messages w' = (earlier ++ [ph])%list /\ text ph = "Paris.".
Proof.
  cbv zeta. split; [reflexivity|]. split; [reflexivity|].
  destruct (streamed_text_is_the_fragments_in_order
              Sample.selectAgent Sample.generateImageUrl
              (Sample.env (Some "key") GeoRejected Cases.threeChunks)
              (messages Sample.idle) "capital of France?" None Sample.idle
              eq_refl eq_refl) as (earlier & ph & Hm & _ & Ht & _).
  exists earlier, ph. split; [exact Hm | exact Ht].
Defined.

Lemma sources_of_a_turn_witness :
  let env := Sample.env (Some "key") GeoRejected Cases.threeChunks in
  let w' := exec (sendMessage Sample.selectAgent Sample.generateImageUrl env
                              (messages Sample.idle) "capital of France?" None)
                 Sample.idle in
  reachesNetwork env (messages Sample.idle) "capital of France?" None = true
  /\ exists earlier ph srcs,
      messages w' = (earlier ++ [ph])%list
      /\ sources ph = Some srcs
      /\ NoDup (uris srcs).
Proof.
  cbv zeta. split; [reflexivity|].
  destruct (sources_of_a_turn Sample.selectAgent Sample.generateImageUrl
              (Sample.env (Some "key") GeoRejected Cases.threeChunks)
              (messages Sample.idle) "capital of France?" None Sample.idle eq_refl)
    as (earlier & ph & Hm & _ & Hsome).
  destruct (Hsome eq_refl) as (srcs & Hs & _ & _ & Hnd).
  exists earlier, ph, srcs. split; [exact Hm|]. split; [exact Hs|].
  apply Hnd. repeat constructor; cbn; intuition discriminate.
Defined.

Lemma request_current_entry_witness :
  let req := requestOf Sample.selectAgent Cases.env (messages Sample.withPicture)
                       "" (Some Sample.photo) in
  In (GenerateContentStream req)
     (emitted Sample.withPicture
              (exec (sendMessage Sample.selectAgent Sample.generateImageUrl Cases.env
                                 (messages Sample.withPicture) ""
                                 (Some Sample.photo)) Sample.withPicture))
  /\ model req = "gemini-2.5-flash".
Proof.
  cbv zeta.
  assert (Hin : In (GenerateContentStream
                      (requestOf Sample.selectAgent Cases.env
                                 (messages Sample.withPicture) "" (Some Sample.photo)))
                   (emitted Sample.withPicture
                      (exec (sendMessage Sample.selectAgent Sample.generateImageUrl
                               Cases.env (messages Sample.withPicture) ""
                               (Some Sample.photo)) Sample.withPicture)))
    by (right; left; reflexivity).
  split; [exact Hin|].
  exact (proj1 (request_current_entry Sample.selectAgent Sample.generateImageUrl
                  _ _ _ _ _ _ Hin)).
Defined.

Lemma position_asked_only_for_maps_requests_witness :
  let w' := exec (sendMessage Sample.selectAgent Sample.generateImageUrl Cases.env
                              (messages Sample.idle) "Where is the nearest cafe?" None)
                 Sample.idle in
  In (GetCurrentPosition 10000%Z) (emitted Sample.idle w')
  /\ exists req, emitted Sample.idle w'
                 = [SelectAgent "Where is the nearest cafe?";
                    GetCurrentPosition 10000%Z; GenerateContentStream req].
Proof.
  cbv zeta.
  assert (Hin : In (GetCurrentPosition 10000%Z)
                   (emitted Sample.idle
                      (exec (sendMessage Sample.selectAgent Sample.generateImageUrl
                               Cases.env (messages Sample.idle)
                               "Where is the nearest cafe?" None) Sample.idle)))
    by (right; left; reflexivity).
  split; [exact Hin|].
  destruct (position_asked_only_for_maps_requests
              Sample.selectAgent Sample.generateImageUrl _ _ _ _ _ _ Hin)
    as (req & He & _).
  exists req. exact He.
Defined.

Lemma stale_stream_writes_nothing_witness :
  Forall (fun m => hasId "9-model" m = false) (messages Sample.withPicture)
  /\ streamed "9-model" Cases.threeChunks Sample.withPicture = Sample.withPicture.
Proof.
  assert (H : Forall (fun m => hasId "9-model" m = false) (messages Sample.withPicture))
    by (repeat constructor).
  split; [exact H|].
  exact (proj1 (stale_stream_writes_nothing "9-model" Cases.threeChunks
                                            Sample.withPicture H)).
Defined.

Lemma escaped_code_is_injective_witness :
  escapedCode "a<b" = escapedCode "a<b" /\ "a<b" = "a<b".
Proof.
  split; [reflexivity|].
  exact (escaped_code_is_injective "a<b" "a<b" eq_refl).
Defined.

Lemma fenced_block_is_extracted_witness :
  allChars notBacktick ("Use this:" ++ nl) = true
  /\ allChars JS.isWordChar "python" = true
  /\ JS.isWord (JS.head (nl ++ "print(1)" ++ nl)) = false
  /\ allChars notBacktick (nl ++ "print(1)" ++ nl) = true
  /\ extractCode Cases.answer = Some "print(1)".
Proof.
  split; [reflexivity|]. split; [reflexivity|]. split; [reflexivity|].
  split; [reflexivity|].
  exact (fenced_block_is_extracted ("Use this:" ++ nl) "python" (nl ++ "print(1)" ++ nl)
                                   (nl ++ "Done.") eq_refl eq_refl eq_refl eq_refl).
Defined.

Lemma unfenced_text_has_no_code_witness :
  allChars notBacktick "Run " = true
  /\ JS.includes "pip install x" "```" = false
  /\ extractCode "Run ```pip install x" = None.
Proof.
  split; [reflexivity|]. split; [reflexivity|].
  exact (proj2 (unfenced_text_has_no_code "Run " "pip install x" eq_refl eq_refl)).
Defined.

Lemma reachable_started : reachable Sample.selectAgent Sample.generateImageUrl Cases.started.
Proof. apply reachable_send, reachable_initial. Qed.

Lemma reachable_asking : reachable Sample.selectAgent Sample.generateImageUrl Cases.asking.
Proof.
  assert (Hchunk : step Sample.selectAgent Sample.generateImageUrl Cases.started
                        Cases.heard).
  { exact (@step_chunk Sample.selectAgent Sample.generateImageUrl Cases.started []
             {| placeholderIdOf := "1700000000000-model"; accum := initialAccum |} []
             (Sample.chunk (Some "Hi") []) eq_refl). }
  assert (Hend : step Sample.selectAgent Sample.generateImageUrl Cases.heard
                      Cases.answeredOnce).
  { exact (@step_end Sample.selectAgent Sample.generateImageUrl Cases.heard []
             {| placeholderIdOf := "1700000000000-model";
                accum := fst (onChunk "1700000000000-model" initialAccum
                                      (Sample.chunk (Some "Hi") [])
                                      (world Cases.started)) |} [] eq_refl). }
  eapply reachable_step; [|apply step_call].
  exact (reachable_step (reachable_step reachable_started Hchunk) Hend).
Qed.

Lemma reachable_shelved : reachable Sample.selectAgent Sample.generateImageUrl Cases.shelved.
Proof. eapply reachable_step; [apply reachable_started | apply step_startNewChat]. Qed.

Lemma loading_message_has_no_text_witness :
  let m := placeholder "1700000000000-model" "Zephyr" in
  reachable Sample.selectAgent Sample.generateImageUrl Cases.started
  /\ In m (messages (world Cases.started))
  /\ JS.truthy_flag (isLoading m) = true
  /\ text m = EmptyString.
Proof.
  cbv zeta. split; [exact reachable_started|].
  assert (Hin : In (placeholder "1700000000000-model" "Zephyr")
                   (messages (world Cases.started))) by (right; left; reflexivity).
  split; [exact Hin|]. split; [reflexivity|].
  exact (proj2 (loading_message_has_no_text Sample.selectAgent Sample.generateImageUrl
                  Cases.started _ reachable_started Hin eq_refl)).
Defined.

Lemma user_messages_are_never_rewritten_witness :
  let m := userMessageOf "1700000000000-user" "hello" None in
  reachable Sample.selectAgent Sample.generateImageUrl Cases.started
  /\ In m (messages (world Cases.started))
  /\ role m = USER
  /\ isLoading m = None.
Proof.
  cbv zeta. split; [exact reachable_started|].
  assert (Hin : In (userMessageOf "1700000000000-user" "hello" None)
                   (messages (world Cases.started))) by (left; reflexivity).
  split; [exact Hin|]. split; [reflexivity|].
  exact (proj1 (user_messages_are_never_rewritten
                  Sample.selectAgent Sample.generateImageUrl
                  Cases.started _ reachable_started Hin eq_refl)).
Defined.

Lemma transcript_alternates_witness :
  reachable Sample.selectAgent Sample.generateImageUrl Cases.started
  /\ alternates (map role (messages (world Cases.started))) = true.
Proof.
  split; [exact reachable_started|].
  exact (proj1 (transcript_alternates Sample.selectAgent Sample.generateImageUrl
                  Cases.started reachable_started)).
Defined.

Lemma request_roles_alternate_witness :
  let a' := resume Sample.selectAgent Sample.generateImageUrl Cases.followUp
                   ([] ++ []) Cases.asking in
  let req := requestOf Sample.selectAgent (Cases.envAt "1700000009000")
                       (messages (world Cases.answeredOnce)) "and then?" None in
  reachable Sample.selectAgent Sample.generateImageUrl Cases.asking
  /\ step Sample.selectAgent Sample.generateImageUrl Cases.asking a'
  /\ In (GenerateContentStream req) (emitted (world Cases.asking) (world a'))
  /\ map text (messages (world Cases.answeredOnce)) = ["hello"; "Hi"]
  /\ map contentRole (contents req) = [USER; MODEL; USER].
Proof.
  cbv zeta.
  assert (Hstep : step Sample.selectAgent Sample.generateImageUrl Cases.asking
                       (resume Sample.selectAgent Sample.generateImageUrl
                               Cases.followUp ([] ++ []) Cases.asking))
    by (apply step_resume; reflexivity).
  assert (Hin : In (GenerateContentStream
                      (requestOf Sample.selectAgent (Cases.envAt "1700000009000")
                                 (messages (world Cases.answeredOnce))
                                 "and then?" None))
                   (emitted (world Cases.asking)
                            (world (resume Sample.selectAgent Sample.generateImageUrl
                                           Cases.followUp ([] ++ []) Cases.asking))))
    by (right; left; reflexivity).
  split; [exact reachable_asking|]. split; [exact Hstep|]. split; [exact Hin|].
  split; [reflexivity|].
  destruct (request_roles_alternate Sample.selectAgent Sample.generateImageUrl
              Cases.asking _ _ reachable_asking Hstep Hin)
    as (c & history & Hc & _ & Hh & Hroles & _).
  destruct Hc as [<-|[]]. rewrite Hh in Hroles. exact Hroles.
Defined.

Lemma archived_chat_title_witness :
  reachable Sample.selectAgent Sample.generateImageUrl Cases.shelved
  /\ In (messages (world Cases.started)) (chatHistory Cases.shelved)
  /\ exists first rest,
      messages (world Cases.started) = first :: rest /\ role first = USER.
Proof.
  split; [exact reachable_shelved|].
  assert (Hin : In (messages (world Cases.started)) (chatHistory Cases.shelved))
    by (left; reflexivity).
  split; [exact Hin|].
  destruct (archived_chat_title Sample.selectAgent Sample.generateImageUrl
              Cases.shelved _ reachable_shelved Hin) as (first & rest & E & Hr & _).
  exists first, rest. split; [exact E | exact Hr].
Defined.

Lemma first_fragment_unblocks_the_form_witness :
  let m := placeholder "1700000000000-model" "Zephyr" in
  let chunk := Sample.chunk (Some "Hi") [] in
  let w' := snd (onChunk "1700000000000-model" initialAccum chunk
                         (world Cases.started)) in
  In m (messages (world Cases.started))
  /\ hasId "1700000000000-model" m = true
  /\ JS.truthy_flag (isLoading m) = true
  /\ JS.truthy_opt (chunkText chunk) = true
  /\ isBusy (messages w') = false
  /\ List.length (messages (submit Sample.selectAgent Sample.generateImageUrl
                                   (Cases.envAt "1700000009000") "and then?"
                                   None w')) = 4.
Proof.
  cbv zeta.
  assert (Hm : In (placeholder "1700000000000-model" "Zephyr")
                  (messages (world Cases.started))) by (right; left; reflexivity).
  split; [exact Hm|].
  split; [reflexivity|]. split; [reflexivity|]. split; [reflexivity|].
  destruct (first_fragment_unblocks_the_form
              Sample.selectAgent Sample.generateImageUrl
              (world Cases.started) "1700000000000-model" initialAccum
              (Sample.chunk (Some "Hi") []) _ Hm eq_refl eq_refl eq_refl)
    as (_ & Hafter & _ & Hnext).
  split; [rewrite Hafter; reflexivity|].
  rewrite (Hnext (eq_trans Hafter eq_refl) (Cases.envAt "1700000009000")
                 "and then?" eq_refl).
  reflexivity.
Defined.

(** ** Persona and effects on every path *)

Section Paths.

Variable selectAgent : string -> option Agent.
Variable generateImageUrl : string -> string.

(** The final state of [sendMessage] on each of its paths. *)
Lemma sendMessage_paths env rendered t img w :
  let w' := exec (sendMessage selectAgent generateImageUrl env rendered t img) w in
  (rejected rendered t img = true /\ w' = w)
  \/ (rejected rendered t img = false /\ isImageCommand t = true
      /\ w' = {| messages :=
                   (messages w
                    ++ [userMessageOf (userMsgIdOf env) t img;
                        imageMessage (placeholderIdFor env)
                                     (generateImageUrl (JS.substring 7 (JS.trim t)))])%list;
                 input := EmptyString; attachment := None;
                 effects := (effects w
                             ++ [GenerateImageUrl (JS.substring 7 (JS.trim t))])%list |})
  \/ (rejected rendered t img = false /\ isImageCommand t = false
      /\ reachesNetwork env rendered t img = false
      /\ exists answer,
          w' = answered (placeholderIdFor env) answer (appended selectAgent env t img w))
  \/ (rejected rendered t img = false /\ isImageCommand t = false
      /\ reachesNetwork env rendered t img = true
      /\ w' = streamed (placeholderIdFor env) (response env)
                       (opened selectAgent env rendered t img w)).
Proof.
  cbv zeta. unfold exec at 1 2 3.
  destruct (rejected rendered t img) eqn:Hrej.
  { left. split; [reflexivity|].
    now rewrite (sendMessage_finished _ _ _ _ _ _ _ _
                   (startTurn_rejected selectAgent generateImageUrl env _ _ _ w Hrej)). }
  destruct (isImageCommand t) eqn:Himg.
  { right; left. split; [reflexivity|]. split; [reflexivity|].
    now rewrite (sendMessage_finished _ _ _ _ _ _ _ _
                   (startTurn_image selectAgent generateImageUrl env _ _ _ w Hrej Himg)). }
  destruct (reachesNetwork env rendered t img) eqn:Hnet.
  { right; right; right. repeat split.
    exact (sendMessage_network selectAgent generateImageUrl _ _ _ _ w Hnet). }
  right; right; left. repeat split.
  destruct (startTurn_worlds selectAgent generateImageUrl env rendered t img w)
    as [[H _]|[(_ & H & _)|[(_ & _ & answer & H)|(_ & H & _)]]]; try congruence.
  exists answer. now rewrite (sendMessage_finished _ _ _ _ _ _ _ _ H).
Qed.

(** X25: the model message of an accepted turn carries the persona on every
    path: "Creative Agent" and kind image for an image command; otherwise the
    name of the persona the classifier chose, or "Zephyr" when it chose none,
    also for the local answers and for the missing-key error, and whatever
    the stream then delivers. *)
Theorem reply_carries_the_persona env rendered messageText imageAttachment w :
  rejected rendered messageText imageAttachment = false ->
  let w' := exec (sendMessage selectAgent generateImageUrl env rendered
                              messageText imageAttachment) w in
  exists reply,
    nth_error (messages w') (S (List.length (messages w))) = Some reply
    /\ agentName reply
       = Some (if isImageCommand messageText then "Creative Agent"
               else match selectAgent messageText with
                    | Some a => name a
                    | None => "Zephyr"
                    end)
    /\ type reply = (if isImageCommand messageText then Some TypeImage else None).
Proof.
  intros Hrej w'.
  assert (Hnth : forall (l : list Message) (u r : Message) (F : Message -> Message),
             nth_error (patch (placeholderIdFor env) F l ++ [u; r])
                       (S (List.length l)) = Some r).
  { intros l u r F. rewrite nth_error_app2 by (rewrite patch_length; lia).
    rewrite patch_length. now replace (S _ - _) with 1 by lia. }
  destruct (sendMessage_paths env rendered messageText imageAttachment w)
    as [[H _]|[(_ & Himg & H)|[(_ & Himg & _ & answer & H)|(_ & Himg & _ & H)]]];
    [congruence| | |]; fold w' in H; rewrite H, Himg.
  - cbn [messages]. eexists. split.
    + rewrite <- (patch_id (placeholderIdFor env) (messages w)) at 1. apply Hnth.
    + split; reflexivity.
  - rewrite answered_appended. eexists. split; [apply Hnth|]. split; reflexivity.
  - rewrite streamed_opened_messages. cbv zeta.
    eexists. split; [apply Hnth|].
    destruct (fixed_fields_streamUpdate (chunks (response env)) initialAccum
                (placeholder (placeholderIdFor env) (agentNameOf selectAgent messageText)))
      as (_ & _ & Ha & _ & Ht).
    destruct (failure (response env)); cbn [withText agentName type];
      rewrite Ha, Ht; split; reflexivity.
Qed.

(** X26: the calls one run of [sendMessage] makes itself, path by path, in
    order: none when the guard rejects and none for an image command; the
    classifier call alone for a local answer or a missing key; otherwise the
    classifier call, the position request when the text is a map query, and
    the request of the turn.  The image generator is called only for an
    image command, with the prompt of the command (how often is left open:
    the call sits in a state updater).  So a run never sends more than one
    request, calls the classifier at most once and asks for the position at
    most once. *)
Theorem effects_of_a_submission env rendered messageText imageAttachment w :
  let w' := exec (sendMessage selectAgent generateImageUrl env rendered
                              messageText imageAttachment) w in
  handlerEffects (emitted w w')
  = (if rejected rendered messageText imageAttachment || isImageCommand messageText
     then []
     else if reachesNetwork env rendered messageText imageAttachment
     then ([SelectAgent messageText]
           ++ (if isMapQuery messageText then [GetCurrentPosition 10000%Z] else [])
           ++ [GenerateContentStream
                 (requestOf selectAgent env rendered messageText imageAttachment)])%list
     else [SelectAgent messageText])
  /\ (forall e, In e (emitted w w') -> isGeneratorCall e = true ->
                rejected rendered messageText imageAttachment = false
                /\ isImageCommand messageText = true
                /\ e = GenerateImageUrl (JS.substring 7 (JS.trim messageText)))
  /\ List.length (networkCalls (emitted w w')) <= 1
  /\ List.length (filter isClassifierCall (emitted w w')) <= 1
  /\ List.length (filter isGeoCall (emitted w w')) <= 1.
Proof.
  intro w'.
  destruct (sendMessage_paths env rendered messageText imageAttachment w)
    as [[Hrej H]|[(Hrej & Himg & H)|[(Hrej & Himg & Hnet & answer & H)
                                    |(Hrej & Himg & Hnet & _)]]];
    try fold w' in H; rewrite Hrej; try rewrite Himg; try rewrite Hnet;
    cbn [orb].
  - rewrite H, emitted_nothing.
    split; [reflexivity|]. split; [intros e []|]. cbn. lia.
  - rewrite H. erewrite emitted_app by (cbn [effects]; reflexivity).
    split; [reflexivity|]. split; [|cbn; lia].
    intros e [<-|[]] _. auto.
  - rewrite H, emitted_answered.
    split; [reflexivity|]. split; [|cbn; lia].
    intros e [<-|[]] Hg; discriminate.
  - unfold w'. rewrite (emitted_network _ _ _ _ _ _ w Hnet).
    unfold networkEffects.
    destruct (isMapQuery messageText);
      (split; [reflexivity|]); (split; [|cbn; lia]);
      intros e He Hg; cbn [app In] in He;
      repeat (destruct He as [<-|He]; [discriminate|]); destruct He.
Qed.

End Paths.

Lemma reply_carries_the_persona_witness :
  let w' := exec (sendMessage Sample.selectAgent Sample.generateImageUrl
                              (Sample.env None GeoRejected (Sample.ended []))
                              (messages Sample.idle) "Code a calculator" None)
                 Sample.idle in
  rejected (messages Sample.idle) "Code a calculator" None = false
  /\ exists reply,
      nth_error (messages w') 1 = Some reply
      /\ agentName reply = Some "Coder Agent".
Proof.
  cbv zeta. split; [reflexivity|].
  destruct (reply_carries_the_persona Sample.selectAgent Sample.generateImageUrl
              (Sample.env None GeoRejected (Sample.ended []))
              (messages Sample.idle) "Code a calculator" None Sample.idle eq_refl)
    as (reply & Hn & Ha & _).
  exists reply. split; [exact Hn | exact Ha].
Defined.
